(** * DomRendererRowFactory: the row reconciliation engine of the DOM renderer

    A shallow embedding of [DomRendererRowFactory.createRow] and of its
    helpers ([_applyMinimumContrast], [_getContrastCache],
    [_isRowInSelection], [_isCellInSelection], [_isSameDecorations],
    [padStart]) together with [excludeFromContrastRatioDemands] of
    RendererUtils.

    Conventions.
    - JavaScript numbers that hold columns, rows, counters, attribute words
      and pixel measures are integers of [Z]; 32-bit operators are written
      out through [int32].  Pixel measures are finite numbers (no NaN).
    - An optional value ([T | undefined]) is an [option]; truthiness of such
      a value is [is_Some'], truthiness of a number is [_ ≠ 0], truthiness
      of a string is non-emptiness.
    - A decoration is a reference ([DecorationRef]) into the decoration
      service's store; [!==] on decorations compares references.
    - Services injected in the constructor, and the functions and constants
      of modules that are imported by the factory, are the fields of
      [Services].
    - The objects the factory mutates and that outlive one call (the scratch
      cell, the two contrast caches of the theme, the width cache) form the
      [World], which is threaded through every call. *)

From Stdlib Require Import ZArith QArith Qround Lia HexadecimalString.
From stdpp Require Import gmap strings list pretty.

Local Open Scope Z_scope.

(** ** 32-bit operators *)

Definition int32 (z : Z) : Z := (z + 2 ^ 31) mod 2 ^ 32 - 2 ^ 31.

(** [a >> n] *)
Definition shr (a n : Z) : Z := Z.shiftr (int32 a) n.

(** [a & b] *)
Definition band (a b : Z) : Z := Z.land (int32 a) (int32 b).

(** [a >>> 0] *)
Definition ushr0 (a : Z) : Z := a mod 2 ^ 32.

(** ** Collaborators' data *)

(** The colour-mode members of [Attributes]. *)
Inductive Attributes := CM_DEFAULT | CM_P16 | CM_P256 | CM_RGB.

Record IColor := { css : string; rgba : Z }.

Record IExtendedAttrs := { ext : Z; underlineStyle : Z }.

(** [ICellData]: the two raw attribute words, the extended attributes and
    the results of the accessor methods. *)
Record CellData := {
  fg : Z;
  bg : Z;
  extended : IExtendedAttrs;
  getChars : string;
  getWidth : Z;
  getCode : Z;
  isBold : bool;
  isItalic : bool;
  isDim : bool;
  isInverse : bool;
  isInvisible : bool;
  isUnderline : bool;
  isOverline : bool;
  isStrikethrough : bool;
  getFgColor : Z;
  getFgColorMode : Attributes;
  getBgColor : Z;
  getBgColorMode : Attributes;
  isUnderlineColorDefault : bool;
  isUnderlineColorRGB : bool;
  getUnderlineColor : Z
}.

(** Modelled from the spec: the class [JoinedCellData] is declared in
    browser/services/CharacterJoinerService, of which only the import is
    here. "A derived cell representing a
    contiguous run of columns rendered as one shaped unit; carries the
    concatenated text and the combined width; all other attributes inherited
    from the first cell of the range." *)
Definition JoinedCellData (firstCell : CellData) (chars : string) (width : Z) : CellData :=
  {| fg := fg firstCell; bg := bg firstCell; extended := extended firstCell;
     getChars := chars; getWidth := width; getCode := getCode firstCell;
     isBold := isBold firstCell; isItalic := isItalic firstCell;
     isDim := isDim firstCell; isInverse := isInverse firstCell;
     isInvisible := isInvisible firstCell; isUnderline := isUnderline firstCell;
     isOverline := isOverline firstCell;
     isStrikethrough := isStrikethrough firstCell;
     getFgColor := getFgColor firstCell; getFgColorMode := getFgColorMode firstCell;
     getBgColor := getBgColor firstCell; getBgColorMode := getBgColorMode firstCell;
     isUnderlineColorDefault := isUnderlineColorDefault firstCell;
     isUnderlineColorRGB := isUnderlineColorRGB firstCell;
     getUnderlineColor := getUnderlineColor firstCell |}.

(** Modelled from the spec: the buffer line behind [IBufferLine] is
    declared in common/Types and implemented outside the renderer; it is the
    "line data provider: loadCell(col, outCell), getNoBgTrimmedLength(),
    translateToString(trimRight, startCol, endCol)".  [loadCell x] is the
    content that [lineData.loadCell(x, this._workCell)] leaves in the scratch
    cell, "a value reloaded each iteration": the cell at column [x],
    whatever the scratch cell held before. *)
Record IBufferLine := {
  length : Z;
  getNoBgTrimmedLength : Z;
  loadCell : Z → CellData;
  translateToString : bool → Z → Z → string
}.

Definition DecorationRef := nat.

Record IInternalDecoration := {
  layer : option string;                 (* options.layer *)
  backgroundColorRGB : option IColor;
  foregroundColorRGB : option IColor
}.

(** The colour set of the theme, without its two caches (see [World]).
    [ansi i] is [colors.ansi[i]]: the palette has an entry for every index
    that a cell or the bold-brightening can produce. *)
Record ReadonlyColorSet := {
  foreground : IColor;
  background : IColor;
  selectionForeground : option IColor;
  selectionBackgroundOpaque : IColor;
  selectionInactiveBackgroundOpaque : IColor;
  ansi : Z → IColor
}.

Record Services := {
  (* ICharacterJoinerService *)
  getJoinedCharacters : Z → list (Z * Z);
  (* IOptionsService.rawOptions *)
  minimumContrastRatio : Q;
  drawBoldTextInBrightColors : bool;
  (* ICoreBrowserService *)
  isFocused : bool;
  (* ICoreService *)
  isCursorHidden : bool;
  isCursorInitialized : bool;
  (* IDecorationService: the decorations at a cell, in callback order, and
     the object behind each reference *)
  forEachDecorationAtCell : Z → Z → list DecorationRef;
  decoration : DecorationRef → IInternalDecoration;
  (* IThemeService *)
  colors : ReadonlyColorSet;
  (* common/Color *)
  rgba_toColor : Z → Z → Z → IColor;
  color_multiplyOpacity : IColor → Q → IColor;
  color_ensureContrastRatio : IColor → IColor → Q → option IColor;
  (* AttributeData.toColorRGB *)
  toColorRGB : Z → list Z;
  (* constants of common/buffer/Constants and renderer/shared/Constants *)
  WHITESPACE_CELL_CHAR : string;
  INVERTED_DEFAULT_COLOR : Z;
  (* the measurement behind the width cache *)
  measure : string → bool → bool → Z
}.

(** ** RowCss *)

Module RowCss.
Definition BOLD_CLASS : string := "xterm-bold".
Definition DIM_CLASS : string := "xterm-dim".
Definition ITALIC_CLASS : string := "xterm-italic".
Definition UNDERLINE_CLASS : string := "xterm-underline".
Definition OVERLINE_CLASS : string := "xterm-overline".
Definition STRIKETHROUGH_CLASS : string := "xterm-strikethrough".
Definition CURSOR_CLASS : string := "xterm-cursor".
Definition CURSOR_BLINK_CLASS : string := "xterm-cursor-blink".
Definition CURSOR_STYLE_BLOCK_CLASS : string := "xterm-cursor-block".
Definition CURSOR_STYLE_OUTLINE_CLASS : string := "xterm-cursor-outline".
Definition CURSOR_STYLE_BAR_CLASS : string := "xterm-cursor-bar".
Definition CURSOR_STYLE_UNDERLINE_CLASS : string := "xterm-cursor-underline".
End RowCss.

(** ** The factory and the objects it mutates *)

Record DomRendererRowFactory := {
  _selectionStart : option (Z * Z);
  _selectionEnd : option (Z * Z);
  _columnSelectMode : bool;
  defaultSpacing : Z
}.

Definition handleSelectionChanged (this : DomRendererRowFactory)
    (start end_ : option (Z * Z)) (columnSelectMode : bool) : DomRendererRowFactory :=
  {| _selectionStart := start; _selectionEnd := end_;
     _columnSelectMode := columnSelectMode;
     defaultSpacing := defaultSpacing this |}.

(** Modelled from the spec: [IColorContrastCache] is declared in
    browser/Types and [WidthCache] in browser/renderer/dom/WidthCache, of
    which only the imports are here.  The contrast cache "maps an ordered
    pair of (backgroundColorValue, foregroundColorValue) → either an
    adjusted color or an explicit no adjustment marker"; [None] as a stored
    value is that marker ([null]), an absent key is [undefined].  The width
    cache "maps (text, bold flag, italic flag) → measured pixel width of
    that text rendered with that style, memoized indefinitely". *)
Record World := {
  _workCell : CellData;
  contrastCache : gmap (Z * Z) (option IColor);
  halfContrastCache : gmap (Z * Z) (option IColor);
  widthCache : gmap (string * bool * bool) Z
}.

(** Modelled from the spec: [WidthCache.get], the memoized measurement of
    browser/renderer/dom/WidthCache: the stored width, or else the measured
    width, which is stored. *)
Definition WidthCache_get (sv : Services) (wc : gmap (string * bool * bool) Z)
    (c : string) (bold italic : bool) : Z * gmap (string * bool * bool) Z :=
  match wc !! (c, bold, italic) with
  | Some w => (w, wc)
  | None => let w := measure sv c bold italic in (w, <[(c, bold, italic) := w]> wc)
  end.

(** ** Selection membership *)

Definition _isRowInSelection (this : DomRendererRowFactory) (y : Z) : bool :=
  match _selectionStart this, _selectionEnd this with
  | Some start, Some end_ => (start.2 <=? y) && (y <=? end_.2)
  | _, _ => false
  end.

Definition _isCellInSelection (this : DomRendererRowFactory) (x y : Z) : bool :=
  match _selectionStart this, _selectionEnd this with
  | Some start, Some end_ =>
      if _columnSelectMode this then
        if start.1 <=? end_.1 then
          (start.1 <=? x) && (start.2 <=? y) && (x <? end_.1) && (y <=? end_.2)
        else
          (x <? start.1) && (start.2 <=? y) && (end_.1 <=? x) && (y <=? end_.2)
      else
        ((start.2 <? y) && (y <? end_.2))
        || ((start.2 =? end_.2) && (y =? start.2) && (start.1 <=? x) && (x <? end_.1))
        || ((start.2 <? end_.2) && (y =? end_.2) && (x <? end_.1))
        || ((start.2 <? end_.2) && (y =? start.2) && (start.1 <=? x))
  | _, _ => false
  end.

(** The membership of a cell as the specification words it (section 4.2),
    for a selection from [start] to [end_]. *)
Definition spec_cellInSelection (start end_ : Z * Z) (columnSelectMode : bool)
    (x y : Z) : Prop :=
  if columnSelectMode then
    let leftCol := Z.min start.1 end_.1 in
    let rightCol := Z.max start.1 end_.1 in
    (start.2 ≤ y ∧ y ≤ end_.2) ∧ (leftCol ≤ x ∧ x < rightCol)
  else
    (start.2 < y ∧ y < end_.2)
    ∨ (start.2 = end_.2 ∧ y = start.2 ∧ start.1 ≤ x ∧ x < end_.1)
    ∨ (start.2 < end_.2 ∧ y = end_.2 ∧ x < end_.1)
    ∨ (start.2 < end_.2 ∧ y = start.2 ∧ start.1 ≤ x).

(** ** Decoration lists *)

(** The comparison loop of [_isSameDecorations]: [n] indices remain, from
    [i] on. *)
Fixpoint _isSameDecorations_loop (decos1 decos2 : list DecorationRef)
    (i n : nat) : bool :=
  match n with
  | O => true
  | S n' =>
      if decide (decos1 !! i = decos2 !! i)
      then _isSameDecorations_loop decos1 decos2 (S i) n'
      else false
  end.

Definition _isSameDecorations (decos1 decos2 : list DecorationRef) : bool :=
  let decos1Length := List.length decos1 in
  let decos2Length := List.length decos2 in
  if Nat.eqb decos1Length 0 && Nat.eqb decos2Length 0 then true
  else if negb (Nat.eqb decos1Length decos2Length) then false
  else _isSameDecorations_loop decos1 decos2 0 decos1Length.

(** ** RendererUtils *)

Definition isPowerlineGlyph (codepoint : Z) : bool :=
  (0xE0A4 <=? codepoint) && (codepoint <=? 0xE0D6).

Definition isBoxOrBlockGlyph (codepoint : Z) : bool :=
  (0x2500 <=? codepoint) && (codepoint <=? 0x259F).

Definition excludeFromContrastRatioDemands (codepoint : Z) : bool :=
  isPowerlineGlyph codepoint || isBoxOrBlockGlyph codepoint.

(** ** DOM elements *)

(** The properties of an [HTMLSpanElement] that the factory writes.  A
    length [`${n}px`] is kept as the number [n]; [className] and [classList]
    are the one list of class tokens. *)
Record HTMLSpanElement := {
  classList : list string;
  textContent : string;
  style_left : option Z;
  style_width : option Z;
  style_backgroundColor : option string;
  style_color : option string;
  style_textDecorationColor : option string;
  style_textDecoration : option string;
  style_letterSpacing : option Z
}.

(** [this._document.createElement('span')] *)
Definition createElement_span : HTMLSpanElement :=
  {| classList := []; textContent := ""; style_left := None; style_width := None;
     style_backgroundColor := None; style_color := None;
     style_textDecorationColor := None; style_textDecoration := None;
     style_letterSpacing := None |}.

Definition set_classList (v : list string) (e : HTMLSpanElement) : HTMLSpanElement :=
  {| classList := v; textContent := textContent e; style_left := style_left e;
     style_width := style_width e; style_backgroundColor := style_backgroundColor e;
     style_color := style_color e;
     style_textDecorationColor := style_textDecorationColor e;
     style_textDecoration := style_textDecoration e;
     style_letterSpacing := style_letterSpacing e |}.

Definition set_textContent (v : string) (e : HTMLSpanElement) : HTMLSpanElement :=
  {| classList := classList e; textContent := v; style_left := style_left e;
     style_width := style_width e; style_backgroundColor := style_backgroundColor e;
     style_color := style_color e;
     style_textDecorationColor := style_textDecorationColor e;
     style_textDecoration := style_textDecoration e;
     style_letterSpacing := style_letterSpacing e |}.

Definition set_style_left (v : Z) (e : HTMLSpanElement) : HTMLSpanElement :=
  {| classList := classList e; textContent := textContent e; style_left := Some v;
     style_width := style_width e; style_backgroundColor := style_backgroundColor e;
     style_color := style_color e;
     style_textDecorationColor := style_textDecorationColor e;
     style_textDecoration := style_textDecoration e;
     style_letterSpacing := style_letterSpacing e |}.

Definition set_style_width (v : Z) (e : HTMLSpanElement) : HTMLSpanElement :=
  {| classList := classList e; textContent := textContent e; style_left := style_left e;
     style_width := Some v; style_backgroundColor := style_backgroundColor e;
     style_color := style_color e;
     style_textDecorationColor := style_textDecorationColor e;
     style_textDecoration := style_textDecoration e;
     style_letterSpacing := style_letterSpacing e |}.

Definition set_style_backgroundColor (v : string) (e : HTMLSpanElement) : HTMLSpanElement :=
  {| classList := classList e; textContent := textContent e; style_left := style_left e;
     style_width := style_width e; style_backgroundColor := Some v;
     style_color := style_color e;
     style_textDecorationColor := style_textDecorationColor e;
     style_textDecoration := style_textDecoration e;
     style_letterSpacing := style_letterSpacing e |}.

Definition set_style_color (v : string) (e : HTMLSpanElement) : HTMLSpanElement :=
  {| classList := classList e; textContent := textContent e; style_left := style_left e;
     style_width := style_width e; style_backgroundColor := style_backgroundColor e;
     style_color := Some v;
     style_textDecorationColor := style_textDecorationColor e;
     style_textDecoration := style_textDecoration e;
     style_letterSpacing := style_letterSpacing e |}.

Definition set_style_textDecorationColor (v : string) (e : HTMLSpanElement) : HTMLSpanElement :=
  {| classList := classList e; textContent := textContent e; style_left := style_left e;
     style_width := style_width e; style_backgroundColor := style_backgroundColor e;
     style_color := style_color e;
     style_textDecorationColor := Some v;
     style_textDecoration := style_textDecoration e;
     style_letterSpacing := style_letterSpacing e |}.

Definition set_style_textDecoration (v : string) (e : HTMLSpanElement) : HTMLSpanElement :=
  {| classList := classList e; textContent := textContent e; style_left := style_left e;
     style_width := style_width e; style_backgroundColor := style_backgroundColor e;
     style_color := style_color e;
     style_textDecorationColor := style_textDecorationColor e;
     style_textDecoration := Some v;
     style_letterSpacing := style_letterSpacing e |}.

Definition set_style_letterSpacing (v : Z) (e : HTMLSpanElement) : HTMLSpanElement :=
  {| classList := classList e; textContent := textContent e; style_left := style_left e;
     style_width := style_width e; style_backgroundColor := style_backgroundColor e;
     style_color := style_color e;
     style_textDecorationColor := style_textDecorationColor e;
     style_textDecoration := style_textDecoration e;
     style_letterSpacing := Some v |}.

(** [classList.add] *)
Definition classList_add (c : string) (e : HTMLSpanElement) : HTMLSpanElement :=
  set_classList (classList e ++ [c]) e.

(** ** Strings *)

(** ['\xa0'] *)
Definition NBSP : string := String (Ascii.ascii_of_nat 160) EmptyString.

(** [n.toString(16)] for an integer [n]. *)
Definition toString16 (n : Z) : string :=
  if n <? 0
  then "-" +:+ NilZero.string_of_uint (N.to_hex_uint (Z.to_N (- n)))
  else NilZero.string_of_uint (N.to_hex_uint (Z.to_N n)).

(** The loop of [padStart].  With a pad of one character it runs at most
    [len] rounds, which is the fuel [padStart] gives it. *)
Fixpoint padStart_loop (fuel : nat) (text padChar : string) (len : nat) : string :=
  if (String.length text <? len)%nat then
    match fuel with
    | O => text
    | S fuel' => padStart_loop fuel' (padChar +:+ text) padChar len
    end
  else text.

Definition padStart (text padChar : string) (len : nat) : string :=
  padStart_loop len text padChar len.

(** Truthiness of an optional object. *)
Definition is_Some' {A} (o : option A) : bool :=
  match o with Some _ => true | None => false end.

(** [s || d] on strings. *)
Definition or_string (s d : string) : string :=
  if String.eqb s "" then d else s.

(** ** createRow: parameters and local variables *)

(** The parameters of [createRow] ([widthCache] is part of the [World]). *)
Record Args := {
  lineData : IBufferLine;
  row : Z;
  isCursorRow : bool;
  cursorStyle : option string;
  cursorInactiveStyle : option string;
  cursorX : Z;
  cursorBlink : bool;
  cellWidth : Z;
  linkStart : Z;
  linkEnd : Z
}.

(** The conditions preserved "for next merger eval round". *)
Record OldAttrs := {
  oldBg : Z;
  oldFg : Z;
  oldExt : Z;
  oldLinkHover : bool;
  oldSpacing : Z;
  oldIsInSelection : bool;
  oldDecorations : list DecorationRef
}.

(** The variables that live across the iterations of the loop of
    [createRow]; [cursorX'] is the current value of the parameter [cursorX],
    which the loop assigns.

    In the source an element is pushed on its array when it is created and
    is written to afterwards through [charElement] / [backgroundElement],
    which alias the last element of the array.  Here the aliased element is
    [charElement] / [backgroundElement] itself, and [charElements] /
    [backgroundElements] hold the elements created before it, in creation
    order: the arrays of the source are [elements_of] below.

    [classes] is empty whenever an iteration starts and [spacing] is assigned
    in every iteration before it is read; both are therefore local to one
    iteration here. *)
Record Locals := {
  charElements : list HTMLSpanElement;
  backgroundElements : list HTMLSpanElement;
  joinedRanges : list (Z * Z);
  cursorX' : Z;
  charElement : option HTMLSpanElement;
  charCellAmount : Z;
  charText : string;
  backgroundElement : option HTMLSpanElement;
  backgroundCellAmount : Z;
  old : OldAttrs
}.

Definition elements_of (closed : list HTMLSpanElement)
    (current : option HTMLSpanElement) : list HTMLSpanElement :=
  closed ++ match current with Some e => [e] | None => [] end.

Definition set_world_workCell (c : CellData) (w : World) : World :=
  {| _workCell := c; contrastCache := contrastCache w;
     halfContrastCache := halfContrastCache w; widthCache := widthCache w |}.

Definition set_world_widthCache (wc : gmap (string * bool * bool) Z) (w : World) : World :=
  {| _workCell := _workCell w; contrastCache := contrastCache w;
     halfContrastCache := halfContrastCache w; widthCache := wc |}.

(** ** Effective row length *)

Definition lineLength (this : DomRendererRowFactory) (a : Args) : Z :=
  let lineLength :=
    if _isRowInSelection this (row a)
    then length (lineData a)
    else getNoBgTrimmedLength (lineData a) in
  if isCursorRow a && (lineLength <? cursorX a + 1) then cursorX a + 1 else lineLength.

(** ** One cell: what is computed before the merge decisions *)

Record CellInfo := {
  cell : CellData;
  isJoined : bool;
  lastCharX : Z;
  width : Z;
  isInSelection : bool;
  isCursorCell : bool;
  isLinkHover : bool;
  decorations : list DecorationRef;
  isSameDecorations : bool;
  chars : string;
  spacing : Z
}.

Definition hasHover (a : Args) : bool :=
  negb (linkStart a =? -1) && negb (linkEnd a =? -1).

(** Lines 111-155 for a cell of non-zero width: the cell information, the
    joined ranges that remain and the width cache after the lookup. *)
Definition cellInfo (sv : Services) (this : DomRendererRowFactory) (a : Args)
    (x : Z) (l : Locals) (w : World)
    : CellInfo * list (Z * Z) * gmap (string * bool * bool) Z :=
  let workCell := _workCell w in
  let joined :=
    match joinedRanges l with
    | range :: rest =>
        if x =? range.1 then
          Some (JoinedCellData workCell
                  (translateToString (lineData a) true range.1 range.2)
                  (range.2 - range.1),
                range.2 - 1, rest)
        else None
    | [] => None
    end in
  let cell := match joined with Some (c, _, _) => c | None => workCell end in
  let isJoined := is_Some' joined in
  let lastCharX := match joined with Some (_, e, _) => e | None => x end in
  let rest := match joined with Some (_, _, r) => r | None => joinedRanges l end in
  let width := getWidth cell in
  let isInSelection := _isCellInSelection this x (row a) in
  let isCursorCell := isCursorRow a && (x =? cursorX' l) in
  let isLinkHover := hasHover a && (linkStart a <=? x) && (x <=? linkEnd a) in
  let decorations := forEachDecorationAtCell sv x (row a) in
  let isSameDecorations := _isSameDecorations decorations (oldDecorations (old l)) in
  let chars0 := or_string (getChars cell) (WHITESPACE_CELL_CHAR sv) in
  let chars :=
    if String.eqb chars0 " " && (isUnderline cell || isOverline cell)
    then NBSP else chars0 in
  let measured := WidthCache_get sv (widthCache w) chars (isBold cell) (isItalic cell) in
  let spacing := width * cellWidth a - measured.1 in
  ({| cell := cell; isJoined := isJoined; lastCharX := lastCharX; width := width;
      isInSelection := isInSelection; isCursorCell := isCursorCell;
      isLinkHover := isLinkHover; decorations := decorations;
      isSameDecorations := isSameDecorations; chars := chars;
      spacing := spacing |},
   rest, measured.2).

(** ** The merge decisions *)

Definition canMergeCharacters (sv : Services) (l : Locals) (i : CellInfo) : bool :=
  is_Some' (charElement l)
  && negb (charCellAmount l =? 0)
  && ((isInSelection i && oldIsInSelection (old l)
       && is_Some' (selectionForeground (colors sv)))
      || (fg (cell i) =? oldFg (old l)))
  && (ext (extended (cell i)) =? oldExt (old l))
  && Bool.eqb (isLinkHover i) (oldLinkHover (old l))
  && isSameDecorations i
  && (spacing i =? oldSpacing (old l))
  && negb (isCursorCell i)
  && negb (isJoined i).

Definition canMergeBackground (l : Locals) (i : CellInfo) : bool :=
  is_Some' (backgroundElement l)
  && negb (backgroundCellAmount l =? 0)
  && isSameDecorations i
  && ((isInSelection i && oldIsInSelection (old l))
      || (negb (isInSelection i) && negb (oldIsInSelection (old l))
          && (bg (cell i) =? oldBg (old l)))).

(** ** Colour resolution when a run is opened *)

Record Paint := {
  paint_fg : Z;
  paint_fgColorMode : Attributes;
  paint_bg : Z;
  paint_bgColorMode : Attributes;
  bgOverride : option IColor;
  fgOverride : option IColor;
  isTop : bool
}.

(** Lines 221-239: the colours of the cell, swapped when it is inverse. *)
Definition initialPaint (c : CellData) : Paint :=
  if isInverse c then
    {| paint_fg := getBgColor c; paint_fgColorMode := getBgColorMode c;
       paint_bg := getFgColor c; paint_bgColorMode := getFgColorMode c;
       bgOverride := None; fgOverride := None; isTop := false |}
  else
    {| paint_fg := getFgColor c; paint_fgColorMode := getFgColorMode c;
       paint_bg := getBgColor c; paint_bgColorMode := getBgColorMode c;
       bgOverride := None; fgOverride := None; isTop := false |}.

Definition layer_is_top (d : IInternalDecoration) : bool :=
  bool_decide (layer d = Some "top").

Definition override_bg (c : IColor) (p : Paint) : Paint :=
  {| paint_fg := paint_fg p; paint_fgColorMode := paint_fgColorMode p;
     paint_bg := band (shr (rgba c) 8) 0xFFFFFF; paint_bgColorMode := CM_RGB;
     bgOverride := Some c; fgOverride := fgOverride p; isTop := isTop p |}.

Definition override_fg (c : IColor) (p : Paint) : Paint :=
  {| paint_fg := band (shr (rgba c) 8) 0xFFFFFF; paint_fgColorMode := CM_RGB;
     paint_bg := paint_bg p; paint_bgColorMode := paint_bgColorMode p;
     bgOverride := bgOverride p; fgOverride := Some c; isTop := isTop p |}.

Definition set_isTop (b : bool) (p : Paint) : Paint :=
  {| paint_fg := paint_fg p; paint_fgColorMode := paint_fgColorMode p;
     paint_bg := paint_bg p; paint_bgColorMode := paint_bgColorMode p;
     bgOverride := bgOverride p; fgOverride := fgOverride p; isTop := b |}.

(** The callback of lines 240-255, run on one decoration. *)
Definition applyDecoration (sv : Services) (p : Paint) (r : DecorationRef) : Paint :=
  let d := decoration sv r in
  if negb (layer_is_top d) && isTop p then p
  else
    let p1 := match backgroundColorRGB d with
              | Some c => override_bg c p
              | None => p
              end in
    let p2 := match foregroundColorRGB d with
              | Some c => override_fg c p1
              | None => p1
              end in
    set_isTop (layer_is_top d) p2.

(** Lines 240-255: the callback run on every decoration at the cell. *)
Definition applyDecorations (sv : Services) (ds : list DecorationRef) (p : Paint) : Paint :=
  fold_left (applyDecoration sv) ds p.

(** Lines 257-273. *)
Definition applySelection (sv : Services) (isInSelection : bool) (p : Paint) : Paint :=
  if negb (isTop p) && isInSelection then
    let sel :=
      if isFocused sv
      then selectionBackgroundOpaque (colors sv)
      else selectionInactiveBackgroundOpaque (colors sv) in
    let p1 := set_isTop true (override_bg sel p) in
    match selectionForeground (colors sv) with
    | Some sf => override_fg sf p1
    | None => p1
    end
  else p.

(** Lines 275-292. *)
Definition resolveBg (sv : Services) (isInverse : bool) (p : Paint) : IColor :=
  match paint_bgColorMode p with
  | CM_P16 | CM_P256 => ansi (colors sv) (paint_bg p)
  | CM_RGB =>
      rgba_toColor sv (shr (paint_bg p) 16) (band (shr (paint_bg p) 8) 0xFF)
        (band (paint_bg p) 0xFF)
  | CM_DEFAULT => if isInverse then foreground (colors sv) else background (colors sv)
  end.

(** Lines 294-299. *)
Definition dimOverride (sv : Services) (c : CellData) (resolvedBg : IColor)
    (bgOverride : option IColor) : option IColor :=
  match bgOverride with
  | Some o => Some o
  | None => if isDim c then Some (color_multiplyOpacity sv resolvedBg (1 # 2)) else None
  end.

(** ** Minimum contrast *)

Definition _getContrastCache (w : World) (c : CellData) : gmap (Z * Z) (option IColor) :=
  if isDim c then halfContrastCache w else contrastCache w.

(** [cache.setColor] on the cache that [_getContrastCache] selected. *)
Definition contrastCache_setColor (w : World) (c : CellData) (bgv fgv : Z)
    (v : option IColor) : World :=
  if isDim c then
    {| _workCell := _workCell w; contrastCache := contrastCache w;
       halfContrastCache := <[(bgv, fgv) := v]> (halfContrastCache w);
       widthCache := widthCache w |}
  else
    {| _workCell := _workCell w;
       contrastCache := <[(bgv, fgv) := v]> (contrastCache w);
       halfContrastCache := halfContrastCache w;
       widthCache := widthCache w |}.

(** The colour looked up in the cache: [None] when the lookup is not made or
    finds nothing ([undefined]), [Some None] for [null]. *)
Definition lookupAdjusted (w : World) (bg fg : IColor) (c : CellData)
    (bgOverride fgOverride : option IColor) : option (option IColor) :=
  if negb (is_Some' bgOverride) && negb (is_Some' fgOverride)
  then _getContrastCache w c !! (rgba bg, rgba fg)
  else None.

Definition _applyMinimumContrast (sv : Services) (w : World)
    (element : HTMLSpanElement) (bg fg : IColor) (c : CellData)
    (bgOverride fgOverride : option IColor) : bool * HTMLSpanElement * World :=
  if Qeq_bool (minimumContrastRatio sv) 1
     || excludeFromContrastRatioDemands (getCode c)
  then (false, element, w)
  else
    let computed :=
      match lookupAdjusted w bg fg c bgOverride fgOverride with
      | Some adjustedColor => (adjustedColor, w)
      | None =>
          let ratio := (minimumContrastRatio sv / (if isDim c then 2 else 1))%Q in
          let adjustedColor :=
            color_ensureContrastRatio sv (default bg bgOverride)
              (default fg fgOverride) ratio in
          (adjustedColor,
           contrastCache_setColor w c (rgba (default bg bgOverride))
             (rgba (default fg fgOverride)) adjustedColor)
      end in
    match computed.1 with
    | Some adjustedColor => (true, set_style_color (css adjustedColor) element, computed.2)
    | None => (false, element, computed.2)
    end.

(** ** Opening a background run (lines 301-328) *)

Definition newBackgroundElement (sv : Services) (a : Args) (x : Z)
    (isInverse : bool) (p : Paint) : HTMLSpanElement :=
  let backgroundElement :=
    set_style_left (cellWidth a * x) (classList_add "xterm-bg" createElement_span) in
  match paint_bgColorMode p with
  | CM_P16 | CM_P256 =>
      classList_add ("xterm-bg-" +:+ pretty (paint_bg p)) backgroundElement
  | CM_RGB =>
      set_style_backgroundColor
        ("#" +:+ padStart (toString16 (ushr0 (paint_bg p))) "0" 6) backgroundElement
  | CM_DEFAULT =>
      if isInverse
      then classList_add ("xterm-bg-" +:+ pretty (INVERTED_DEFAULT_COLOR sv)) backgroundElement
      else backgroundElement
  end.

(** ** Opening a text run (lines 330-491) *)

(** Lines 353-386. *)
Definition cursorClasses (sv : Services) (a : Args) (isCursorCell : bool) : list string :=
  if negb (isCursorHidden sv) && isCursorCell && isCursorInitialized sv then
    RowCss.CURSOR_CLASS ::
    (if isFocused sv then
       (if cursorBlink a then [RowCss.CURSOR_BLINK_CLASS] else [])
       ++ [if bool_decide (cursorStyle a = Some "bar") then RowCss.CURSOR_STYLE_BAR_CLASS
           else if bool_decide (cursorStyle a = Some "underline")
                then RowCss.CURSOR_STYLE_UNDERLINE_CLASS
                else RowCss.CURSOR_STYLE_BLOCK_CLASS]
     else
       match cursorInactiveStyle a with
       | Some "outline" => [RowCss.CURSOR_STYLE_OUTLINE_CLASS]
       | Some "block" => [RowCss.CURSOR_STYLE_BLOCK_CLASS]
       | Some "bar" => [RowCss.CURSOR_STYLE_BAR_CLASS]
       | Some "underline" => [RowCss.CURSOR_STYLE_UNDERLINE_CLASS]
       | _ => []
       end)
  else [].

(** [if (charText === ' ') charText = '\xa0'] *)
Definition nbsp_if_space (charText : string) : string :=
  if String.eqb charText " " then NBSP else charText.

(** The text of a new run, lines 400-429. *)
Definition newCharText (sv : Services) (c : CellData) : string :=
  let t0 := if isInvisible c then WHITESPACE_CELL_CHAR sv
            else or_string (getChars c) (WHITESPACE_CELL_CHAR sv) in
  let t1 := if isUnderline c then nbsp_if_space t0 else t0 in
  if isOverline c then nbsp_if_space t1 else t1.

(** The underline colour, lines 411-421. *)
Definition underlineColor (sv : Services) (c : CellData) (e : HTMLSpanElement)
    : HTMLSpanElement :=
  if isUnderline c && negb (isUnderlineColorDefault c) then
    if isUnderlineColorRGB c then
      set_style_textDecorationColor
        ("rgb(" +:+ String.concat "," (pretty <$> toColorRGB sv (getUnderlineColor c)) +:+ ")")
        e
    else
      let fg := getUnderlineColor c in
      let fg := if drawBoldTextInBrightColors sv && isBold c && (fg <? 8)
                then fg + 8 else fg in
      set_style_textDecorationColor (css (ansi (colors sv) fg)) e
  else e.

(** The classes pushed before the foreground is resolved, lines 348-433. *)
Definition styleClasses (sv : Services) (a : Args) (i : CellInfo) (p : Paint)
    : list string :=
  let c := cell i in
  (if isTop p then ["xterm-decoration-top"] else [])
  ++ cursorClasses sv a (isCursorCell i)
  ++ (if isBold c then [RowCss.BOLD_CLASS] else [])
  ++ (if isItalic c then [RowCss.ITALIC_CLASS] else [])
  ++ (if isDim c then [RowCss.DIM_CLASS] else [])
  ++ (if isUnderline c
      then [RowCss.UNDERLINE_CLASS +:+ "-" +:+ pretty (underlineStyle (extended c))]
      else [])
  ++ (if isOverline c then [RowCss.OVERLINE_CLASS] else [])
  ++ (if isStrikethrough c then [RowCss.STRIKETHROUGH_CLASS] else []).

(** The foreground, lines 441-469: the element, the classes it adds and the
    world after the contrast caches were used. *)
Definition foregroundPaint (sv : Services) (w : World) (i : CellInfo) (p : Paint)
    (isInverse : bool) (resolvedBg : IColor) (bgOverride : option IColor)
    (e : HTMLSpanElement) : HTMLSpanElement * list string * World :=
  let c := cell i in
  match paint_fgColorMode p with
  | CM_P16 | CM_P256 =>
      let fg := paint_fg p in
      let fg := if isBold c && (fg <? 8) && drawBoldTextInBrightColors sv
                then fg + 8 else fg in
      let r := _applyMinimumContrast sv w e resolvedBg (ansi (colors sv) fg) c
                 bgOverride None in
      (r.1.2, if r.1.1 then [] else ["xterm-fg-" +:+ pretty fg], r.2)
  | CM_RGB =>
      let fg := paint_fg p in
      let color := rgba_toColor sv (band (shr fg 16) 0xFF) (band (shr fg 8) 0xFF)
                     (band fg 0xFF) in
      let r := _applyMinimumContrast sv w e resolvedBg color c bgOverride
                 (fgOverride p) in
      (if r.1.1 then r.1.2
       else set_style_color ("#" +:+ padStart (toString16 fg) "0" 6) r.1.2,
       [], r.2)
  | CM_DEFAULT =>
      let r := _applyMinimumContrast sv w e resolvedBg (foreground (colors sv)) c
                 bgOverride (fgOverride p) in
      (r.1.2,
       if r.1.1 then []
       else if isInverse then ["xterm-fg-" +:+ pretty (INVERTED_DEFAULT_COLOR sv)] else [],
       r.2)
  end.

(** The element of a new text run and the text that [charText] holds after
    it was created. *)
Definition newCharElement (sv : Services) (this : DomRendererRowFactory) (a : Args)
    (w : World) (i : CellInfo) (p : Paint) (isInverse : bool) (resolvedBg : IColor)
    (bgOverride : option IColor) : HTMLSpanElement * string * World :=
  let c := cell i in
  let charText := newCharText sv c in
  let e := underlineColor sv c createElement_span in
  let e := if isLinkHover i then set_style_textDecoration "underline" e else e in
  let r := foregroundPaint sv w i p isInverse resolvedBg bgOverride e in
  let classes := styleClasses sv a i p ++ r.1.2 in
  let e := match classes with [] => r.1.1 | _ => set_classList classes r.1.1 end in
  let e := if negb (isCursorCell i) && negb (isJoined i) then e
           else set_textContent charText e in
  let e := if spacing i =? defaultSpacing this then e
           else set_style_letterSpacing (spacing i) e in
  (e, charText, r.2).

(** ** Updates of the local variables *)

Definition set_joinedRanges (v : list (Z * Z)) (l : Locals) : Locals :=
  {| charElements := charElements l; backgroundElements := backgroundElements l;
     joinedRanges := v; cursorX' := cursorX' l; charElement := charElement l;
     charCellAmount := charCellAmount l; charText := charText l;
     backgroundElement := backgroundElement l;
     backgroundCellAmount := backgroundCellAmount l; old := old l |}.

(** [backgroundCellAmount += width] *)
Definition extendBackground (width : Z) (l : Locals) : Locals :=
  {| charElements := charElements l; backgroundElements := backgroundElements l;
     joinedRanges := joinedRanges l; cursorX' := cursorX' l;
     charElement := charElement l; charCellAmount := charCellAmount l;
     charText := charText l; backgroundElement := backgroundElement l;
     backgroundCellAmount := backgroundCellAmount l + width; old := old l |}.

(** [charText += chars; charCellAmount++] *)
Definition extendCharacters (chars : string) (l : Locals) : Locals :=
  {| charElements := charElements l; backgroundElements := backgroundElements l;
     joinedRanges := joinedRanges l; cursorX' := cursorX' l;
     charElement := charElement l; charCellAmount := charCellAmount l + 1;
     charText := charText l +:+ chars; backgroundElement := backgroundElement l;
     backgroundCellAmount := backgroundCellAmount l; old := old l |}.

(** Lines 212-219. *)
Definition preserve (i : CellInfo) (l : Locals) : Locals :=
  {| charElements := charElements l; backgroundElements := backgroundElements l;
     joinedRanges := joinedRanges l; cursorX' := cursorX' l;
     charElement := charElement l; charCellAmount := charCellAmount l;
     charText := charText l; backgroundElement := backgroundElement l;
     backgroundCellAmount := backgroundCellAmount l;
     old := {| oldBg := bg (cell i); oldFg := fg (cell i);
               oldExt := ext (extended (cell i)); oldLinkHover := isLinkHover i;
               oldSpacing := spacing i; oldIsInSelection := isInSelection i;
               oldDecorations := decorations i |} |}.

(** The background element as it is once its run is over: its width is
    written when [backgroundCellAmount] is not zero (lines 303-305, and
    502-504 after the loop).  The element exists whenever the counter is not
    zero ([elementsDefined] below), so that [backgroundElement!] never fails;
    the same holds of [charElement!]. *)
Definition closedBackground (a : Args) (l : Locals) : option HTMLSpanElement :=
  if backgroundCellAmount l =? 0 then backgroundElement l
  else set_style_width (backgroundCellAmount l * cellWidth a) <$> backgroundElement l.

(** The text element as it is once its run is over (lines 332-334, and
    499-501 after the loop). *)
Definition closedCharacters (l : Locals) : option HTMLSpanElement :=
  if charCellAmount l =? 0 then charElement l
  else set_textContent (charText l) <$> charElement l.

(** Lines 302-328. *)
Definition openBackground (a : Args) (e : HTMLSpanElement) (width : Z)
    (l : Locals) : Locals :=
  {| charElements := charElements l;
     backgroundElements := elements_of (backgroundElements l) (closedBackground a l);
     joinedRanges := joinedRanges l; cursorX' := cursorX' l;
     charElement := charElement l; charCellAmount := charCellAmount l;
     charText := charText l; backgroundElement := Some e;
     backgroundCellAmount := 0 + width; old := old l |}.

(** Lines 331-346 and 479-490: [cursorX] is moved to the start of a joined
    range that holds it, and [charCellAmount] counts the cell only when it
    may be merged with. *)
Definition openCharacters (x : Z) (i : CellInfo) (e : HTMLSpanElement)
    (charText : string) (l : Locals) : Locals :=
  {| charElements := elements_of (charElements l) (closedCharacters l);
     backgroundElements := backgroundElements l;
     joinedRanges := joinedRanges l;
     cursorX' := if isJoined i && (x <=? cursorX' l) && (cursorX' l <=? lastCharX i)
                 then x else cursorX' l;
     charElement := Some e;
     charCellAmount := if negb (isCursorCell i) && negb (isJoined i) then 0 + 1 else 0;
     charText := charText; backgroundElement := backgroundElement l;
     backgroundCellAmount := backgroundCellAmount l; old := old l |}.

(** ** The body of the loop *)

(** The paint of a run opened at column [x] (lines 221-273). *)
Definition resolvePaint (sv : Services) (a : Args) (x : Z) (i : CellInfo) : Paint :=
  applySelection sv (isInSelection i)
    (applyDecorations sv (forEachDecorationAtCell sv x (row a)) (initialPaint (cell i))).

(** One iteration at column [x]: the local variables, the value of [x] when
    the body is left (the loop then adds one) and the world. *)
Definition createRow_cell (sv : Services) (this : DomRendererRowFactory) (a : Args)
    (x : Z) (l : Locals) (w : World) : Locals * Z * World :=
  let w := set_world_workCell (loadCell (lineData a) x) w in
  if getWidth (_workCell w) =? 0 then (l, x, w)
  else
    let ci := cellInfo sv this a x l w in
    let i := ci.1.1 in
    let w := set_world_widthCache ci.2 w in
    let canMergeCharacters := canMergeCharacters sv l i in
    let canMergeBackground := canMergeBackground l i in
    let l := set_joinedRanges ci.1.2 l in
    let l := if canMergeBackground then extendBackground (width i) l else l in
    let l := if canMergeCharacters then extendCharacters (chars i) l else l in
    if canMergeCharacters && canMergeBackground then (l, x, w)
    else
      let l := preserve i l in
      let isInverse := isInverse (cell i) in
      let p := resolvePaint sv a x i in
      let resolvedBg := resolveBg sv isInverse p in
      let bgOverride := dimOverride sv (cell i) resolvedBg (bgOverride p) in
      let l := if canMergeBackground then l
               else openBackground a (newBackgroundElement sv a x isInverse p) (width i) l in
      if canMergeCharacters then (l, x, w)
      else
        let r := newCharElement sv this a w i p isInverse resolvedBg bgOverride in
        (openCharacters x i r.1.1 r.1.2 l, lastCharX i, r.2).

(** ** The loop and [createRow] *)

(** [for (let x = 0; x < lineLength; x++)], from [x] on.  Every iteration
    either moves [x] one column on or takes a joined range off the list and
    moves [x] to the end of that range; [loop_fuel] bounds the number of
    iterations that are left. *)
Fixpoint createRow_loop (sv : Services) (this : DomRendererRowFactory) (a : Args)
    (fuel : nat) (x : Z) (l : Locals) (w : World) : option (Locals * World) :=
  if x <? lineLength this a then
    match fuel with
    | O => None
    | S fuel' =>
        let r := createRow_cell sv this a x l w in
        createRow_loop sv this a fuel' (r.1.2 + 1) r.1.1 r.2
    end
  else Some (l, w).

Fixpoint ranges_fuel (len : Z) (ranges : list (Z * Z)) : nat :=
  match ranges with
  | [] => O
  | range :: rest => (Z.to_nat (len - range.2) + 1 + ranges_fuel len rest)%nat
  end.

Definition loop_fuel (len x : Z) (ranges : list (Z * Z)) : nat :=
  (Z.to_nat (len - x) + ranges_fuel len ranges)%nat.

(** Lines 75-98. *)
Definition initialLocals (sv : Services) (a : Args) : Locals :=
  {| charElements := []; backgroundElements := [];
     joinedRanges := getJoinedCharacters sv (row a);
     cursorX' := cursorX a; charElement := None; charCellAmount := 0;
     charText := ""; backgroundElement := None; backgroundCellAmount := 0;
     old := {| oldBg := 0; oldFg := 0; oldExt := 0; oldLinkHover := false;
               oldSpacing := 0; oldIsInSelection := false; oldDecorations := [] |} |}.

(** The arrays when the loop is over, lines 498-506. *)
Definition backgroundRuns (a : Args) (l : Locals) : list HTMLSpanElement :=
  elements_of (backgroundElements l) (closedBackground a l).

Definition textRuns (l : Locals) : list HTMLSpanElement :=
  elements_of (charElements l) (closedCharacters l).

Definition createRow (sv : Services) (this : DomRendererRowFactory) (a : Args)
    (w : World) : option (list HTMLSpanElement * World) :=
  let l := initialLocals sv a in
  match createRow_loop sv this a
          (loop_fuel (lineLength this a) 0 (joinedRanges l)) 0 l w with
  | Some (l, w) => Some (backgroundRuns a l ++ textRuns l, w)
  | None => None
  end.

(** ** Vocabulary of the properties *)

(** The row lies within the row range of an active selection. *)
Definition rowInSelectionRange (this : DomRendererRowFactory) (y : Z) : Prop :=
  ∃ start end_, _selectionStart this = Some start ∧ _selectionEnd this = Some end_
                ∧ start.2 ≤ y ∧ y ≤ end_.2.

(** Two decoration lists are the same list of references: same length and
    the same reference at every index. *)
Definition sameDecorationList (decos1 decos2 : list DecorationRef) : Prop :=
  List.length decos1 = List.length decos2
  ∧ ∀ k, (k < List.length decos1)%nat → decos1 !! k = decos2 !! k.

(** The cell information of the iteration at column [x]. *)
Definition infoAt (sv : Services) (this : DomRendererRowFactory) (a : Args)
    (x : Z) (l : Locals) (w : World) : CellInfo :=
  (cellInfo sv this a x l (set_world_workCell (loadCell (lineData a) x) w)).1.1.

(** The local variables after the iteration at column [x]. *)
Definition localsAfter (sv : Services) (this : DomRendererRowFactory) (a : Args)
    (x : Z) (l : Locals) (w : World) : Locals :=
  (createRow_cell sv this a x l w).1.1.

(** The iteration visits the cell at [x]: it is not the zero-width cell
    that a wide character owns. *)
Definition visited (a : Args) (x : Z) : Prop :=
  getWidth (loadCell (lineData a) x) ≠ 0.

(** Text runs emitted so far, the open one included. *)
Definition textRunCount (l : Locals) : nat :=
  List.length (elements_of (charElements l) (charElement l)).

Definition backgroundRunCount (l : Locals) : nat :=
  List.length (elements_of (backgroundElements l) (backgroundElement l)).

(** A text run is open: there is a text element and it counts at least one
    cell that can be merged with. *)
Definition textRunOpen (l : Locals) : Prop :=
  is_Some (charElement l) ∧ charCellAmount l ≠ 0.

Definition backgroundRunOpen (l : Locals) : Prop :=
  is_Some (backgroundElement l) ∧ backgroundCellAmount l ≠ 0.

(** Going from [l] to [l'] the cell was added to the open text run: no
    element was created, the text grew by the characters of the cell and the
    run counts one cell more. *)
Definition extendsTextRun (i : CellInfo) (l l' : Locals) : Prop :=
  textRunCount l' = textRunCount l
  ∧ charElements l' = charElements l
  ∧ charElement l' = charElement l
  ∧ charText l' = charText l +:+ chars i
  ∧ charCellAmount l' = charCellAmount l + 1.

(** Going from [l] to [l'] a text run was started. *)
Definition startsTextRun (l l' : Locals) : Prop :=
  textRunCount l' = S (textRunCount l).

(** Going from [l] to [l'] the cell was added to the open background run. *)
Definition extendsBackgroundRun (i : CellInfo) (l l' : Locals) : Prop :=
  backgroundRunCount l' = backgroundRunCount l
  ∧ backgroundElements l' = backgroundElements l
  ∧ backgroundElement l' = backgroundElement l
  ∧ backgroundCellAmount l' = backgroundCellAmount l + width i.

Definition startsBackgroundRun (l l' : Locals) : Prop :=
  backgroundRunCount l' = S (backgroundRunCount l).

(** The decoration scan as the specification words it: in decoration order
    every override is applied, and the top-layer flag is set by a top-layer
    decoration and never cleared. *)
Definition spec_applyDecoration (sv : Services) (p : Paint) (r : DecorationRef) : Paint :=
  let d := decoration sv r in
  let p1 := match backgroundColorRGB d with
            | Some c => override_bg c p
            | None => p
            end in
  let p2 := match foregroundColorRGB d with
            | Some c => override_fg c p1
            | None => p1
            end in
  set_isTop (isTop p || layer_is_top d) p2.

Definition spec_applyDecorations (sv : Services) (ds : list DecorationRef) (p : Paint) : Paint :=
  fold_left (spec_applyDecoration sv) ds p.

(** What [_applyMinimumContrast] does with an adjusted colour, or with the
    marker that there is none. *)
Definition withAdjusted (adjustedColor : option IColor) (element : HTMLSpanElement)
    : bool * HTMLSpanElement :=
  match adjustedColor with
  | Some c => (true, set_style_color (css c) element)
  | None => (false, element)
  end.








(** A contrast cache is a memo table of the contrast adjustment: what it
    holds for a pair of colour values is what [color.ensureContrastRatio]
    returns for colours with these values at the ratio of the cache ([dim]
    for the half-contrast cache). *)
Definition contrastCacheConsistent (sv : Services) (dim : bool)
    (cache : gmap (Z * Z) (option IColor)) : Prop :=
  ∀ bg fg adjusted,
    cache !! (rgba bg, rgba fg) = Some adjusted →
    adjusted = color_ensureContrastRatio sv bg fg
                 (minimumContrastRatio sv / (if dim then 2 else 1))%Q.

(** The width cache is a memo table of the measurement. *)
Definition widthCacheConsistent (sv : Services)
    (wc : gmap (string * bool * bool) Z) : Prop :=
  ∀ c bold italic wd, wc !! (c, bold, italic) = Some wd → wd = measure sv c bold italic.

Definition memoTables (sv : Services) (w : World) : Prop :=
  contrastCacheConsistent sv false (contrastCache w)
  ∧ contrastCacheConsistent sv true (halfContrastCache w)
  ∧ widthCacheConsistent sv (widthCache w).

(** [color.ensureContrastRatio] reads the colour values of its arguments
    only, as the keys of the contrast cache take for granted. *)
Definition adjustsByValue (sv : Services) : Prop :=
  ∀ bg bg' fg fg' ratio,
    rgba bg = rgba bg' → rgba fg = rgba fg' →
    color_ensureContrastRatio sv bg fg ratio
    = color_ensureContrastRatio sv bg' fg' ratio.

(** The non-null assertions of the source are justified: a counter that is
    not zero has its element. *)
Definition elementsDefined (l : Locals) : Prop :=
  (charCellAmount l ≠ 0 → is_Some (charElement l))
  ∧ (backgroundCellAmount l ≠ 0 → is_Some (backgroundElement l)).

(** ** Concrete inputs used by the examples *)

Definition plainCell (ch : string) : CellData :=
  {| fg := 0; bg := 0; extended := {| ext := 0; underlineStyle := 0 |};
     getChars := ch; getWidth := 1; getCode := 97;
     isBold := false; isItalic := false; isDim := false; isInverse := false;
     isInvisible := false; isUnderline := false; isOverline := false;
     isStrikethrough := false;
     getFgColor := -1; getFgColorMode := CM_DEFAULT;
     getBgColor := -1; getBgColorMode := CM_DEFAULT;
     isUnderlineColorDefault := true; isUnderlineColorRGB := false;
     getUnderlineColor := -1 |}.

(** A line over a list of cells; columns outside the list hold empty cells. *)
Definition lineOf (cells : list CellData) : IBufferLine :=
  {| length := Z.of_nat (List.length cells);
     getNoBgTrimmedLength := Z.of_nat (List.length cells);
     loadCell := fun x =>
       if x <? 0 then plainCell "" else nth (Z.to_nat x) cells (plainCell "");
     translateToString := fun _ s e =>
       String.concat ""
         (getChars <$> take (Z.to_nat (e - s)) (drop (Z.to_nat s) cells)) |}.

Definition black : IColor := {| css := "#000000"; rgba := 0x000000FF |}.
Definition white : IColor := {| css := "#ffffff"; rgba := 0xFFFFFFFF |}.
Definition red : IColor := {| css := "#ff0000"; rgba := 0xFF0000FF |}.
Definition blue : IColor := {| css := "#0000ff"; rgba := 0x0000FFFF |}.
Definition grey : IColor := {| css := "#808080"; rgba := 0x808080FF |}.

Definition testColors (selFg : option IColor) : ReadonlyColorSet :=
  {| foreground := white; background := black; selectionForeground := selFg;
     selectionBackgroundOpaque := blue; selectionInactiveBackgroundOpaque := grey;
     ansi := fun i => if i =? 1 then red else if i =? 4 then blue else grey |}.

(** The decorations of the examples: reference 0 is a top-layer decoration
    with a red background, reference 1 a bottom-layer decoration with a blue
    background, any other reference a decoration without colours. *)
Definition testDecoration (r : DecorationRef) : IInternalDecoration :=
  match r with
  | O => {| layer := Some "top"; backgroundColorRGB := Some red;
            foregroundColorRGB := None |}
  | S O => {| layer := Some "bottom"; backgroundColorRGB := Some blue;
              foregroundColorRGB := None |}
  | _ => {| layer := None; backgroundColorRGB := None; foregroundColorRGB := None |}
  end.

(** Services with minimum contrast ratio [ratio], selection foreground
    [selFg], joined ranges [ranges] on every row, the decorations [decos x]
    at column [x], the contrast adjustment [ensure] and every text as wide as
    a cell of 10 pixels. *)
Definition mkServices (ratio : Q) (selFg : option IColor) (ranges : list (Z * Z))
    (decos : Z → list DecorationRef)
    (ensure : IColor → IColor → Q → option IColor) : Services :=
  {| getJoinedCharacters := fun _ => ranges;
     minimumContrastRatio := ratio;
     drawBoldTextInBrightColors := true;
     isFocused := true;
     isCursorHidden := false;
     isCursorInitialized := true;
     forEachDecorationAtCell := fun x _ => decos x;
     decoration := testDecoration;
     colors := testColors selFg;
     rgba_toColor := fun r g b =>
       {| css := "rgb";
          rgba := Z.lor (Z.shiftl r 24) (Z.lor (Z.shiftl g 16) (Z.lor (Z.shiftl b 8) 255)) |};
     color_multiplyOpacity := fun c _ => c;
     color_ensureContrastRatio := ensure;
     toColorRGB := fun v => [Z.shiftr v 16; Z.land (Z.shiftr v 8) 255; Z.land v 255];
     WHITESPACE_CELL_CHAR := " ";
     INVERTED_DEFAULT_COLOR := 257;
     measure := fun _ _ _ => 10 |}.

Definition testServices (ratio : Q) (selFg : option IColor) : Services :=
  mkServices ratio selFg [] (fun _ => []) (fun _ _ _ => None).

Definition noSelection : DomRendererRowFactory :=
  {| _selectionStart := None; _selectionEnd := None; _columnSelectMode := false;
     defaultSpacing := 0 |}.

Definition testArgs (cells : list CellData) (isCursorRow : bool) (cursorX : Z) : Args :=
  {| lineData := lineOf cells; row := 0; isCursorRow := isCursorRow;
     cursorStyle := Some "block"; cursorInactiveStyle := Some "outline";
     cursorX := cursorX; cursorBlink := false; cellWidth := 10;
     linkStart := -1; linkEnd := -1 |}.

Definition emptyWorld : World :=
  {| _workCell := plainCell ""; contrastCache := ∅; halfContrastCache := ∅;
     widthCache := ∅ |}.

(** A row that starts with the two cells of the ligature [=>], joined as the
    range from column 0 to column 2. *)
Definition ligatureRow : list CellData := [plainCell "="; plainCell ">"; plainCell "a"].

Definition ligatureServices : Services :=
  mkServices 1 None [(0, 2)] (fun _ => []) (fun _ _ _ => None).

Definition dimCell (ch : string) : CellData :=
  {| fg := 0; bg := 0x08000000; extended := {| ext := 0; underlineStyle := 0 |};
     getChars := ch; getWidth := 1; getCode := 97;
     isBold := false; isItalic := false; isDim := true; isInverse := false;
     isInvisible := false; isUnderline := false; isOverline := false;
     isStrikethrough := false;
     getFgColor := -1; getFgColorMode := CM_DEFAULT;
     getBgColor := -1; getBgColorMode := CM_DEFAULT;
     isUnderlineColorDefault := true; isUnderlineColorRGB := false;
     getUnderlineColor := -1 |}.

(** Services that demand a contrast ratio of 4.5 and adjust every foreground
    to blue; no decorations, no joined ranges. *)
Definition contrastServices : Services :=
  mkServices (9 # 2) None [] (fun _ => []) (fun _ _ _ => Some blue).

(** A world whose two contrast caches hold red for the pair of the default
    background and the default foreground of the theme. *)
Definition redCachedWorld : World :=
  {| _workCell := plainCell "";
     contrastCache := {[ (rgba black, rgba white) := Some red ]};
     halfContrastCache := {[ (rgba black, rgba white) := Some red ]};
     widthCache := ∅ |}.

(** A cell with 16-colour palette foreground [n]. *)
Definition fgCell (ch : string) (n : Z) : CellData :=
  {| fg := Z.lor 0x1000000 n; bg := 0; extended := {| ext := 0; underlineStyle := 0 |};
     getChars := ch; getWidth := 1; getCode := 97;
     isBold := false; isItalic := false; isDim := false; isInverse := false;
     isInvisible := false; isUnderline := false; isOverline := false;
     isStrikethrough := false;
     getFgColor := n; getFgColorMode := CM_P16;
     getBgColor := -1; getBgColorMode := CM_DEFAULT;
     isUnderlineColorDefault := true; isUnderlineColorRGB := false;
     getUnderlineColor := -1 |}.



(** A selection of the columns 0 to 5 of row 0. *)
Definition selectedRow : DomRendererRowFactory :=
  {| _selectionStart := Some (0, 0); _selectionEnd := Some (5, 0);
     _columnSelectMode := false; defaultSpacing := 0 |}.

(** The local variables when the first cell of the row was rendered. *)
Definition afterFirstCell (sv : Services) (this : DomRendererRowFactory) (a : Args) : Locals :=
  localsAfter sv this a 0 (initialLocals sv a) emptyWorld.

(** ** Vocabulary of further properties *)

(** [k] copies of a string, one after the other. *)
Fixpoint repeat_string (k : nat) (s : string) : string :=
  match k with
  | O => ""
  | S k' => s +:+ repeat_string k' s
  end.

(** The marks of an element of the background layer: its first class is
    [xterm-bg], it has a left edge, and it has no text and no text style. *)
Definition isBackgroundElement (e : HTMLSpanElement) : Prop :=
  (∃ cs, classList e = "xterm-bg" :: cs)
  ∧ is_Some (style_left e)
  ∧ textContent e = ""
  ∧ style_color e = None
  ∧ style_textDecoration e = None
  ∧ style_textDecorationColor e = None
  ∧ style_letterSpacing e = None.

(** The marks of an element of the text layer: no geometry and no
    background colour. *)
Definition isTextElement (e : HTMLSpanElement) : Prop :=
  style_left e = None ∧ style_width e = None ∧ style_backgroundColor e = None.


(** The characters that a cell adds to a text run that it is merged into
    (lines 149-152). *)
Definition renderedChars (sv : Services) (c : CellData) : string :=
  let chars := or_string (getChars c) (WHITESPACE_CELL_CHAR sv) in
  if String.eqb chars " " && (isUnderline c || isOverline c) then NBSP else chars.

(** The cursor is shown: the conditions of line 353 that do not depend on
    the cell. *)
Definition cursorShown (sv : Services) : bool :=
  negb (isCursorHidden sv) && isCursorInitialized sv.

(** [isRestrictedPowerlineGlyph] of RendererUtils. *)
Definition isRestrictedPowerlineGlyph (codepoint : Z) : bool :=
  (0xE0B0 <=? codepoint) && (codepoint <=? 0xE0B7).

(** ** RendererUtils: the offsets and the plan of curly underlines

    The widths of a cell and of a line are whole numbers of device pixels, as
    are the offsets; [Math.round] is written out on a rational line width. *)

(** [Math.round] *)
Definition Math_round (q : Q) : Z := Qfloor (q + (1 # 2)).

(** [a % b] on integers; [None] is NaN, the remainder by zero. *)
Definition js_rem (a b : Z) : option Z :=
  if b =? 0 then None else Some (Z.rem a b).

Definition computeNextVariantOffset (cellWidth : Z) (lineWidth : Q)
    (currentOffset : Z) : option Z :=
  js_rem (cellWidth - (Math_round lineWidth * 2 - currentOffset))
    (Math_round lineWidth * 2).

(** The variables of [createVariantSequences] that live across its loops;
    [midOrLine], [upOrDown] and [lastUpOrDown] are of type [0 | 1]: [false]
    is 0. *)
Record CurlyState := {
  cellResult : list string;
  cellCurrentWidth : Z;
  midOrLine : bool;
  waitHandleLinePx : Z;
  upOrDown : bool;
  lastUpOrDown : bool
}.

(** [`${tag}${n}`] *)
Definition segment (tag : string) (n : Z) : string := tag +:+ pretty n.

(** The body of the inner loop, [while (cellCurrentWidth > 0)]. *)
Definition curlyStep (point line : Z) (s : CurlyState) : CurlyState :=
  if negb (midOrLine s) then
    if 0 <? waitHandleLinePx s then
      (* right *)
      let tag := if negb (lastUpOrDown s) then "M" else "P" in
      {| cellResult := cellResult s ++ [segment tag (waitHandleLinePx s)];
         cellCurrentWidth := cellCurrentWidth s - waitHandleLinePx s;
         midOrLine := true; waitHandleLinePx := 0;
         upOrDown := upOrDown s; lastUpOrDown := lastUpOrDown s |}
    else
      (* left *)
      let tag := if negb (lastUpOrDown s) then "Z" else "Q" in
      let usingWidth := point in
      if cellCurrentWidth s <? usingWidth then
        {| cellResult := cellResult s ++ [segment tag (cellCurrentWidth s)];
           cellCurrentWidth := 0;
           midOrLine := midOrLine s;
           waitHandleLinePx := usingWidth - cellCurrentWidth s;
           upOrDown := upOrDown s; lastUpOrDown := lastUpOrDown s |}
      else
        {| cellResult := cellResult s
                         ++ [segment (if negb (upOrDown s) then "Y" else "B") point];
           cellCurrentWidth := cellCurrentWidth s - point;
           midOrLine := true; waitHandleLinePx := waitHandleLinePx s;
           upOrDown := upOrDown s; lastUpOrDown := lastUpOrDown s |}
  else
    let tag := if negb (upOrDown s) then "U" else "D" in
    if 0 <? waitHandleLinePx s then
      {| cellResult := cellResult s ++ [segment tag (waitHandleLinePx s)];
         cellCurrentWidth := cellCurrentWidth s - waitHandleLinePx s;
         midOrLine := false; waitHandleLinePx := 0;
         upOrDown := negb (upOrDown s); lastUpOrDown := upOrDown s |}
    else
      let usingWidth := line in
      if cellCurrentWidth s <? usingWidth then
        {| cellResult := cellResult s ++ [segment tag (cellCurrentWidth s)];
           cellCurrentWidth := 0;
           midOrLine := midOrLine s;
           waitHandleLinePx := usingWidth - cellCurrentWidth s;
           upOrDown := upOrDown s; lastUpOrDown := lastUpOrDown s |}
      else
        {| cellResult := cellResult s ++ [segment tag line];
           cellCurrentWidth := cellCurrentWidth s - line;
           midOrLine := false; waitHandleLinePx := waitHandleLinePx s;
           upOrDown := negb (upOrDown s); lastUpOrDown := upOrDown s |}.

(** The inner loop; [None] when the fuel runs out. *)
Fixpoint curlyCell (fuel : nat) (point line : Z) (s : CurlyState) : option CurlyState :=
  if 0 <? cellCurrentWidth s then
    match fuel with
    | O => None
    | S fuel' => curlyCell fuel' point line (curlyStep point line s)
    end
  else Some s.

(** The outer loop, [while (countPx > 0)]: every round renders one cell and
    pushes its segments, joined by spaces. *)
Fixpoint curlyCells (fuel : nat) (cellWidth point line : Z) (countPx : Z)
    (result : list string) (s : CurlyState) : option (list string) :=
  if 0 <? countPx then
    match fuel with
    | O => None
    | S fuel' =>
        match curlyCell (Z.to_nat cellWidth) point line
                {| cellResult := []; cellCurrentWidth := cellWidth;
                   midOrLine := midOrLine s; waitHandleLinePx := waitHandleLinePx s;
                   upOrDown := upOrDown s; lastUpOrDown := lastUpOrDown s |} with
        | None => None
        | Some s' =>
            curlyCells fuel' cellWidth point line (countPx - cellWidth)
              (result ++ [String.concat " " (cellResult s')]) s'
        end
    end
  else Some result.

(** [createVariantSequences] with its two optional parameters: [cellNum]
    (default 0) and [vague] (default false), which only feeds a tag that is
    overwritten before it is used.  With a cell, a point and a line of one
    pixel at least, the inner loop takes at most [cellWidth] rounds and the
    outer loop at most [countPx]: that is the fuel. *)
Definition createVariantSequences (cellWidth fullSegmentWidth point line : Z)
    (cellNum : Z) (vague : bool) : option (list string) :=
  let countPx := cellWidth * (if negb (cellNum =? 0) then cellNum else fullSegmentWidth) in
  curlyCells (Z.to_nat countPx) cellWidth point line countPx []
    {| cellResult := []; cellCurrentWidth := 0; midOrLine := false;
       waitHandleLinePx := 0; upOrDown := false; lastUpOrDown := false |}.

(** [createDrawCurlyPlan]; [UNDERLINE_CURLY_SEGMENT_SIZE] is a constant of
    browser/renderer/shared/Constants. *)
Definition createDrawCurlyPlan (UNDERLINE_CURLY_SEGMENT_SIZE : Z)
    (cellWidth lineWidth : Z) : option (list string) :=
  let defaultFullSegmentWidth := UNDERLINE_CURLY_SEGMENT_SIZE * lineWidth * 2 in
  if lineWidth =? 2 then createVariantSequences cellWidth 12 lineWidth 4 0 false
  else if lineWidth =? 3 then createVariantSequences cellWidth 16 lineWidth 5 0 false
  else createVariantSequences cellWidth defaultFullSegmentWidth lineWidth (3 * lineWidth)
         0 false.

(** [curlyVariants[offset]]: absent for an index out of the array. *)
Definition variantAt (curlyVariants : list string) (offset : Z) : option string :=
  if offset <? 0 then None else curlyVariants !! Z.to_nat offset.

(** [getCurlyVariant] reads the module's [_curlyVariantCache], a [TwoKeyMap]
    of common/MultiKeyMap: a finite map on pairs of keys, [get] the lookup
    ([undefined] for an absent pair) and [set] the insertion; a stored plan,
    an array, is truthy even when it is empty. *)
Definition getCurlyVariant (_curlyVariantCache : gmap (Z * Z) (list string))
    (cellWidth lineWidth offset : Z) : string :=
  match _curlyVariantCache !! (cellWidth, lineWidth) with
  | Some curlyVariants =>
      if (0 <? List.length curlyVariants)%nat then
        match variantAt curlyVariants offset with
        | Some v => if String.eqb v "" then default "" (curlyVariants !! O) else v
        | None => default "" (curlyVariants !! O)
        end
      else ""
  | None => ""
  end.

(** [getCurlyVariantOffset]: the offset ([None] is NaN), the cache
    afterwards, and [None] for the whole when the plan does not come to an
    end. *)
Definition getCurlyVariantOffset (UNDERLINE_CURLY_SEGMENT_SIZE : Z)
    (_curlyVariantCache : gmap (Z * Z) (list string)) (x cellWidth lineWidth : Z)
    : option (option Z * gmap (Z * Z) (list string)) :=
  match _curlyVariantCache !! (cellWidth, lineWidth) with
  | None =>
      match createDrawCurlyPlan UNDERLINE_CURLY_SEGMENT_SIZE cellWidth lineWidth with
      | Some curlyVariants =>
          Some (js_rem x (Z.of_nat (List.length curlyVariants)),
                <[(cellWidth, lineWidth) := curlyVariants]> _curlyVariantCache)
      | None => None
      end
  | Some curlyVariants =>
      Some (js_rem x (Z.of_nat (List.length curlyVariants)), _curlyVariantCache)
  end.

(** The invariant of [_curlyVariantCache], whose one writer is
    [getCurlyVariantOffset]: every entry is the plan of its key. *)
Definition cacheOfPlans (UNDERLINE_CURLY_SEGMENT_SIZE : Z)
    (_curlyVariantCache : gmap (Z * Z) (list string)) : Prop :=
  forall cellWidth lineWidth curlyVariants,
    _curlyVariantCache !! (cellWidth, lineWidth) = Some curlyVariants ->
    createDrawCurlyPlan UNDERLINE_CURLY_SEGMENT_SIZE cellWidth lineWidth
      = Some curlyVariants.

(** * Properties *)

(** Case analysis on the two merge decisions of the iteration in the goal. *)
Ltac case_canMergeBackground :=
  match goal with
  | |- context [canMergeBackground ?l ?i] => destruct (canMergeBackground l i)
  end.

Ltac case_canMergeCharacters :=
  match goal with
  | |- context [canMergeCharacters ?sv ?l ?i] => destruct (canMergeCharacters sv l i)
  end.

(** ** Selection membership *)

Lemma isRowInSelection_true this y :
  _isRowInSelection this y = true ↔ rowInSelectionRange this y.
Proof.
  unfold _isRowInSelection, rowInSelectionRange.
  destruct (_selectionStart this) as [s|], (_selectionEnd this) as [e|]; split.
  - intros H. apply andb_true_iff in H as [H1 H2].
    exists s, e. repeat split; lia.
  - intros (s' & e' & Hs & He & H1 & H2). simplify_eq.
    apply andb_true_iff. split; lia.
  - discriminate.
  - intros (s' & e' & Hs & He & _). discriminate.
  - discriminate.
  - intros (s' & e' & Hs & He & _). discriminate.
  - discriminate.
  - intros (s' & e' & Hs & He & _). discriminate.
Qed.

(** C8. The cell-level selection predicate [_isCellInSelection] agrees with
    the definition of the specification: in column-select mode the row is
    within the row range and the column within [leftCol, rightCol), leftCol
    being the lesser endpoint column; in stream mode the cell is on a middle
    row, or on a single-row selection within [startCol, endCol), or on the
    end row before endCol, or on the start row at or after startCol. *)
Theorem isCellInSelection_spec (start end_ : Z * Z) (mode : bool) (ds x y : Z) :
  _isCellInSelection
    {| _selectionStart := Some start; _selectionEnd := Some end_;
       _columnSelectMode := mode; defaultSpacing := ds |} x y = true
  ↔ spec_cellInSelection start end_ mode x y.
Proof.
  unfold _isCellInSelection, spec_cellInSelection. simpl.
  destruct start as [sx sy], end_ as [ex ey]. simpl.
  destruct mode.
  - destruct (Z.leb_spec sx ex).
    + rewrite !andb_true_iff, !Z.leb_le, !Z.ltb_lt. lia.
    + rewrite !andb_true_iff, !Z.leb_le, !Z.ltb_lt. lia.
  - rewrite !orb_true_iff, !andb_true_iff, !Z.leb_le, !Z.ltb_lt, !Z.eqb_eq. lia.
Qed.

(** ** Effective row length *)

(** C3. The effective row length is the trimmed length of the line, or the
    full length of the line when the row is within the row range of the
    selection; on the cursor row it is extended to [cursorX + 1] when the
    cursor column is at or beyond that length.  The loop iterates over the
    columns below it and over no other. *)
Theorem lineLength_effective (sv : Services) (this : DomRendererRowFactory) (a : Args) :
  (∃ base,
      ((rowInSelectionRange this (row a) ∧ base = length (lineData a))
       ∨ (¬ rowInSelectionRange this (row a)
          ∧ base = getNoBgTrimmedLength (lineData a)))
      ∧ ((isCursorRow a = true ∧ base ≤ cursorX a
          ∧ lineLength this a = cursorX a + 1)
         ∨ (¬ (isCursorRow a = true ∧ base ≤ cursorX a)
            ∧ lineLength this a = base)))
  ∧ (∀ fuel x l w, lineLength this a ≤ x →
       createRow_loop sv this a fuel x l w = Some (l, w))
  ∧ (∀ fuel x l w, x < lineLength this a →
       createRow_loop sv this a (S fuel) x l w
       = createRow_loop sv this a fuel
           ((createRow_cell sv this a x l w).1.2 + 1)
           (createRow_cell sv this a x l w).1.1
           (createRow_cell sv this a x l w).2).
Proof.
  split; [|split].
  - unfold lineLength.
    destruct (_isRowInSelection this (row a)) eqn:Hsel.
    + exists (length (lineData a)). split.
      * left. split; [by apply isRowInSelection_true|done].
      * destruct (isCursorRow a); simpl.
        -- destruct (Z.ltb_spec (length (lineData a)) (cursorX a + 1)).
           ++ left. repeat split; lia.
           ++ right. split; [lia|done].
        -- right. split; [|done]. intros [? _]. discriminate.
    + exists (getNoBgTrimmedLength (lineData a)). split.
      * right. split; [|done]. intros H%isRowInSelection_true. congruence.
      * destruct (isCursorRow a); simpl.
        -- destruct (Z.ltb_spec (getNoBgTrimmedLength (lineData a)) (cursorX a + 1)).
           ++ left. repeat split; lia.
           ++ right. split; [lia|done].
        -- right. split; [|done]. intros [? _]. discriminate.
  - intros fuel x l w H. destruct fuel; simpl;
      destruct (Z.ltb_spec x (lineLength this a)); (lia || done).
  - intros fuel x l w H. simpl.
    destruct (Z.ltb_spec x (lineLength this a)); [done|lia].
Qed.

(** ** The merge decisions *)

Lemma isSameDecorations_loop_true decos1 decos2 n : ∀ i,
  _isSameDecorations_loop decos1 decos2 i n = true
  ↔ ∀ k, (i ≤ k < i + n)%nat → decos1 !! k = decos2 !! k.
Proof.
  induction n as [|n IH]; intros i; simpl.
  - split; [|done]. intros _ k Hk. lia.
  - destruct (decide (decos1 !! i = decos2 !! i)) as [Heq|Hne].
    + rewrite IH. split.
      * intros H k Hk. destruct (decide (k = i)) as [->|]; [done|].
        apply H. lia.
      * intros H k Hk. apply H. lia.
    + split; [discriminate|]. intros H. destruct Hne. apply H. lia.
Qed.

Lemma isSameDecorations_true decos1 decos2 :
  _isSameDecorations decos1 decos2 = true ↔ sameDecorationList decos1 decos2.
Proof.
  unfold _isSameDecorations, sameDecorationList.
  destruct (Nat.eqb_spec (List.length decos1) 0) as [H1|H1];
    destruct (Nat.eqb_spec (List.length decos2) 0) as [H2|H2]; simpl.
  - split; [|done]. intros _. split; [lia|]. intros k Hk. lia.
  - destruct (Nat.eqb_spec (List.length decos1) (List.length decos2)); [lia|].
    simpl. split; [discriminate|]. intros [? _]. lia.
  - destruct (Nat.eqb_spec (List.length decos1) (List.length decos2)); [lia|].
    simpl. split; [discriminate|]. intros [? _]. lia.
  - destruct (Nat.eqb_spec (List.length decos1) (List.length decos2)) as [Hl|Hl]; simpl.
    + rewrite isSameDecorations_loop_true. split.
      * intros H. split; [done|]. intros k Hk. apply H. lia.
      * intros [_ H] k Hk. apply H. lia.
    + split; [discriminate|]. intros [? _]. lia.
Qed.

Lemma sameDecorationList_eq decos1 decos2 :
  sameDecorationList decos1 decos2 ↔ decos1 = decos2.
Proof.
  split; [|intros ->; by split].
  intros [Hlen H]. apply list_eq. intros k.
  destruct (decide (k < List.length decos1)%nat) as [Hk|Hk]; [by apply H|].
  rewrite !lookup_ge_None_2; [done|lia|lia].
Qed.

Lemma is_Some'_true {A} (o : option A) : is_Some' o = true ↔ is_Some o.
Proof.
  destruct o; simpl; split; first [done | by eauto | by intros [? ?]].
Qed.

Lemma canMergeCharacters_true sv l i :
  canMergeCharacters sv l i = true
  ↔ textRunOpen l
    ∧ ((isInSelection i = true ∧ oldIsInSelection (old l) = true
        ∧ is_Some (selectionForeground (colors sv)))
       ∨ fg (cell i) = oldFg (old l))
    ∧ ext (extended (cell i)) = oldExt (old l)
    ∧ isLinkHover i = oldLinkHover (old l)
    ∧ isSameDecorations i = true
    ∧ spacing i = oldSpacing (old l)
    ∧ isCursorCell i = false
    ∧ isJoined i = false.
Proof.
  unfold canMergeCharacters, textRunOpen.
  rewrite !andb_true_iff, orb_true_iff, !andb_true_iff, !negb_true_iff,
    !is_Some'_true, !Z.eqb_eq, Z.eqb_neq, Bool.eqb_true_iff.
  tauto.
Qed.

Lemma canMergeBackground_true l i :
  canMergeBackground l i = true
  ↔ backgroundRunOpen l
    ∧ isSameDecorations i = true
    ∧ ((isInSelection i = true ∧ oldIsInSelection (old l) = true)
       ∨ (isInSelection i = false ∧ oldIsInSelection (old l) = false
          ∧ bg (cell i) = oldBg (old l))).
Proof.
  unfold canMergeBackground, backgroundRunOpen.
  rewrite !andb_true_iff, orb_true_iff, !andb_true_iff, !negb_true_iff,
    !is_Some'_true, !Z.eqb_eq, Z.eqb_neq.
  tauto.
Qed.


(** *** The local variables after an iteration *)

Lemma length_elements_of (closed : list HTMLSpanElement) current :
  List.length (elements_of closed current)
  = (List.length closed + match current with Some _ => 1 | None => 0 end)%nat.
Proof. unfold elements_of. rewrite length_app. by destruct current. Qed.

Lemma closedCharacters_is_Some l : is_Some (closedCharacters l) ↔ is_Some (charElement l).
Proof.
  unfold closedCharacters. destruct (charCellAmount l =? 0); [done|].
  by rewrite fmap_is_Some.
Qed.

Lemma closedBackground_is_Some a l :
  is_Some (closedBackground a l) ↔ is_Some (backgroundElement l).
Proof.
  unfold closedBackground. destruct (backgroundCellAmount l =? 0); [done|].
  by rewrite fmap_is_Some.
Qed.

Lemma length_closed_characters l :
  List.length (elements_of (charElements l) (closedCharacters l)) = textRunCount l.
Proof.
  unfold textRunCount. rewrite !length_elements_of.
  pose proof (closedCharacters_is_Some l) as H.
  destruct (closedCharacters l), (charElement l); try done.
  - destruct H as [H _]. by destruct H.
  - destruct H as [_ H]. by destruct H.
Qed.

Lemma length_closed_background a l :
  List.length (elements_of (backgroundElements l) (closedBackground a l))
  = backgroundRunCount l.
Proof.
  unfold backgroundRunCount. rewrite !length_elements_of.
  pose proof (closedBackground_is_Some a l) as H.
  destruct (closedBackground a l), (backgroundElement l); try done.
  - destruct H as [H _]. by destruct H.
  - destruct H as [_ H]. by destruct H.
Qed.

Lemma skipped_localsAfter sv this a x l w :
  ¬ visited a x → createRow_cell sv this a x l w
                  = (l, x, set_world_workCell (loadCell (lineData a) x) w).
Proof.
  unfold visited, createRow_cell. intros H. simpl.
  destruct (Z.eqb_spec (getWidth (loadCell (lineData a) x)) 0); [done|].
  destruct H. done.
Qed.

(** When the text can be merged, the iteration extends the open text run. *)
Lemma merged_text sv this a x l w :
  visited a x →
  canMergeCharacters sv l (infoAt sv this a x l w) = true →
  extendsTextRun (infoAt sv this a x l w) l (localsAfter sv this a x l w)
  ∧ cursorX' (localsAfter sv this a x l w) = cursorX' l.
Proof.
  unfold visited, localsAfter, createRow_cell, infoAt, extendsTextRun, textRunCount.
  intros Hv Hc. simpl in *.
  destruct (Z.eqb_spec (getWidth (loadCell (lineData a) x)) 0); [done|].
  rewrite Hc. simpl.
  case_canMergeBackground; simpl; done.
Qed.

(** When the text cannot be merged, the iteration starts a text run whose
    counter is one for a cell that may be merged with and zero for the
    cursor cell and for a joined unit. *)
Lemma opened_text sv this a x l w :
  visited a x →
  canMergeCharacters sv l (infoAt sv this a x l w) = false →
  let i := infoAt sv this a x l w in
  let l' := localsAfter sv this a x l w in
  startsTextRun l l'
  ∧ charElements l' = elements_of (charElements l) (closedCharacters l)
  ∧ is_Some (charElement l')
  ∧ charCellAmount l' = (if negb (isCursorCell i) && negb (isJoined i) then 1 else 0)
  ∧ cursorX' l' = (if isJoined i && (x <=? cursorX' l) && (cursorX' l <=? lastCharX i)
                   then x else cursorX' l).
Proof.
  unfold visited, localsAfter, createRow_cell, infoAt, startsTextRun.
  intros Hv Hc. simpl in *.
  destruct (Z.eqb_spec (getWidth (loadCell (lineData a) x)) 0); [done|].
  rewrite Hc. simpl.
  case_canMergeBackground; simpl.
  - split; [|split; [done|split; [by eexists|split; [|done]]]].
    + unfold textRunCount at 1. simpl. rewrite length_elements_of.
      match goal with |- context [closedCharacters ?l'] =>
        change (closedCharacters l') with (closedCharacters l) end.
      rewrite length_closed_characters. lia.
    + by destruct (negb _ && negb _).
  - split; [|split; [done|split; [by eexists|split; [|done]]]].
    + unfold textRunCount at 1. simpl. rewrite length_elements_of.
      match goal with |- context [closedCharacters ?l'] =>
        change (closedCharacters l') with (closedCharacters l) end.
      rewrite length_closed_characters. lia.
    + by destruct (negb _ && negb _).
Qed.

(** When the background can be merged, the iteration extends the open
    background run. *)
Lemma merged_background sv this a x l w :
  visited a x →
  canMergeBackground l (infoAt sv this a x l w) = true →
  extendsBackgroundRun (infoAt sv this a x l w) l (localsAfter sv this a x l w).
Proof.
  unfold visited, localsAfter, createRow_cell, infoAt, extendsBackgroundRun,
    backgroundRunCount.
  intros Hv Hc. simpl in *.
  destruct (Z.eqb_spec (getWidth (loadCell (lineData a) x)) 0); [done|].
  rewrite Hc. simpl.
  case_canMergeCharacters; simpl; done.
Qed.

(** When the background cannot be merged, the iteration starts a background
    run that spans the width of the cell. *)
Lemma opened_background sv this a x l w :
  visited a x →
  canMergeBackground l (infoAt sv this a x l w) = false →
  let i := infoAt sv this a x l w in
  let l' := localsAfter sv this a x l w in
  startsBackgroundRun l l'
  ∧ backgroundElements l' = elements_of (backgroundElements l) (closedBackground a l)
  ∧ is_Some (backgroundElement l')
  ∧ backgroundCellAmount l' = width i.
Proof.
  unfold visited, localsAfter, createRow_cell, infoAt, startsBackgroundRun.
  intros Hv Hc. simpl in *.
  destruct (Z.eqb_spec (getWidth (loadCell (lineData a) x)) 0); [done|].
  rewrite Hc. rewrite andb_false_r.
  case_canMergeCharacters; simpl.
  - split; [|split; [done|split; [by eexists|done]]].
    unfold backgroundRunCount at 1. simpl. rewrite length_elements_of.
    match goal with |- context [closedBackground a ?l'] =>
      change (closedBackground a l') with (closedBackground a l) end.
    rewrite length_closed_background. lia.
  - split; [|split; [done|split; [by eexists|done]]].
    unfold backgroundRunCount at 1. simpl. rewrite length_elements_of.
    match goal with |- context [closedBackground a ?l'] =>
      change (closedBackground a l') with (closedBackground a l) end.
    rewrite length_closed_background. lia.
Qed.



(** ** The loop *)

Lemma canMergeCharacters_joined sv l i :
  isJoined i = true → canMergeCharacters sv l i = false.
Proof. unfold canMergeCharacters. intros ->. apply andb_false_r. Qed.

Lemma canMergeCharacters_cursor sv l i :
  isCursorCell i = true → canMergeCharacters sv l i = false.
Proof.
  unfold canMergeCharacters. intros ->. simpl. by rewrite andb_false_r.
Qed.

Lemma canMergeCharacters_zero sv l i :
  charCellAmount l = 0 → canMergeCharacters sv l i = false.
Proof.
  unfold canMergeCharacters. intros ->. simpl. by rewrite andb_false_r.
Qed.

(** What an iteration does to the column and to the joined ranges: it leaves
    both alone, or it takes the first range, which starts at the column, and
    moves to the last column of that range. *)
Lemma createRow_cell_position sv this a x l w :
  let r := createRow_cell sv this a x l w in
  (joinedRanges r.1.1 = joinedRanges l ∧ r.1.2 = x
   ∧ (visited a x → isJoined (infoAt sv this a x l w) = false))
  ∨ (∃ range, joinedRanges l = range :: joinedRanges r.1.1
              ∧ x = range.1 ∧ r.1.2 = range.2 - 1 ∧ visited a x
              ∧ isJoined (infoAt sv this a x l w) = true
              ∧ width (infoAt sv this a x l w) = range.2 - range.1).
Proof.
  destruct (decide (visited a x)) as [Hv|Hv].
  2: { rewrite skipped_localsAfter by done. simpl. left. done. }
  assert (Hw : (getWidth (loadCell (lineData a) x) =? 0) = false)
    by by apply Z.eqb_neq.
  destruct (isJoined (infoAt sv this a x l w)) eqn:Hj.
  - right.
    pose proof (canMergeCharacters_joined sv l _ Hj) as Hc.
    revert Hj Hc. unfold infoAt, createRow_cell, cellInfo. simpl. rewrite Hw.
    destruct (joinedRanges l) as [|range rest] eqn:Hr; [done|].
    destruct (Z.eqb_spec x range.1) as [Hx|Hx]; [|done].
    simpl. intros _ Hc. rewrite Hc. simpl.
    exists range.
    case_canMergeBackground; simpl; rewrite ?Hr; done.
  - left. revert Hj. unfold infoAt, createRow_cell, cellInfo. simpl. rewrite Hw.
    destruct (joinedRanges l) as [|range rest] eqn:Hr.
    + simpl. intros _.
      case_canMergeCharacters;
      case_canMergeBackground; simpl; rewrite ?Hr; done.
    + destruct (Z.eqb_spec x range.1) as [Hx|Hx]; [done|].
      simpl. intros _.
      case_canMergeCharacters;
      case_canMergeBackground; simpl; rewrite ?Hr; done.
Qed.

(** Every iteration below the effective length uses up some of the fuel
    bound. *)
Lemma createRow_cell_fuel sv this a x l w :
  x < lineLength this a →
  let r := createRow_cell sv this a x l w in
  (loop_fuel (lineLength this a) (r.1.2 + 1) (joinedRanges r.1.1)
   < loop_fuel (lineLength this a) x (joinedRanges l))%nat.
Proof.
  intros Hx r. subst r. unfold loop_fuel.
  destruct (createRow_cell_position sv this a x l w)
    as [(Hr & Hp & _)|(range & Hr & _ & Hp & _)].
  - rewrite Hr, Hp. lia.
  - rewrite Hr, Hp. simpl. lia.
Qed.

(** The loop ends when it is given the fuel of [loop_fuel]. *)
Lemma createRow_loop_terminates sv this a fuel : ∀ x l w,
  (loop_fuel (lineLength this a) x (joinedRanges l) ≤ fuel)%nat →
  is_Some (createRow_loop sv this a fuel x l w).
Proof.
  induction fuel as [|fuel IH]; intros x l w Hf; simpl.
  - destruct (Z.ltb_spec x (lineLength this a)); [|by eexists].
    unfold loop_fuel in Hf. lia.
  - destruct (Z.ltb_spec x (lineLength this a)); [|by eexists].
    apply IH.
    pose proof (createRow_cell_fuel sv this a x l w ltac:(done)). simpl in *. lia.
Qed.

Lemma createRow_returns sv this a w : is_Some (createRow sv this a w).
Proof.
  unfold createRow.
  destruct (createRow_loop_terminates sv this a
              (loop_fuel (lineLength this a) 0 (joinedRanges (initialLocals sv a)))
              0 (initialLocals sv a) w) as [[l' w'] H]; [done|].
  rewrite H. by eexists.
Qed.

(** Invariants of the loop: a property of the column, the local variables and
    the world that every iteration below the effective length keeps holds
    when the loop is over, at a column that is not below that length. *)
Lemma createRow_loop_invariant sv this a (P : Z → Locals → World → Prop) :
  (∀ x l w, x < lineLength this a → P x l w →
     let r := createRow_cell sv this a x l w in P (r.1.2 + 1) r.1.1 r.2) →
  ∀ fuel x l w l' w',
    P x l w →
    createRow_loop sv this a fuel x l w = Some (l', w') →
    ∃ x', lineLength this a ≤ x' ∧ P x' l' w'.
Proof.
  intros Hstep. induction fuel as [|fuel IH]; intros x l w l' w' HP; simpl.
  - destruct (Z.ltb_spec x (lineLength this a)); [done|].
    intros [= <- <-]. eauto.
  - destruct (Z.ltb_spec x (lineLength this a)).
    + apply IH. by apply Hstep.
    + intros [= <- <-]. eauto.
Qed.

(** ** Runs opened for the cursor cell or for a joined unit *)

Lemma charElements_prefix sv this a x l w :
  charElements l `prefix_of` charElements (localsAfter sv this a x l w).
Proof.
  destruct (decide (visited a x)) as [Hv|Hv].
  2: { unfold localsAfter. by rewrite skipped_localsAfter. }
  destruct (canMergeCharacters sv l (infoAt sv this a x l w)) eqn:Hc.
  - destruct (merged_text sv this a x l w Hv Hc) as [(_ & -> & _) _]. done.
  - destruct (opened_text sv this a x l w Hv Hc) as (_ & -> & _).
    by apply prefix_app_r.
Qed.

Lemma newCharElement_textContent sv this a w i p isInverse resolvedBg bgOverride :
  negb (isCursorCell i) && negb (isJoined i) = false →
  textContent (newCharElement sv this a w i p isInverse resolvedBg bgOverride).1.1
  = newCharText sv (cell i).
Proof.
  unfold newCharElement. intros ->. cbn [fst snd].
  by destruct (spacing i =? defaultSpacing this).
Qed.

Lemma opened_text_element sv this a x l w :
  visited a x →
  canMergeCharacters sv l (infoAt sv this a x l w) = false →
  ∃ w0 p isInverse resolvedBg bgOverride,
    charElement (localsAfter sv this a x l w)
    = Some (newCharElement sv this a w0 (infoAt sv this a x l w) p isInverse
              resolvedBg bgOverride).1.1.
Proof.
  unfold visited, localsAfter, createRow_cell, infoAt.
  intros Hv Hc. simpl in *.
  destruct (Z.eqb_spec (getWidth (loadCell (lineData a) x)) 0); [done|].
  rewrite Hc. simpl. by eexists _, _, _, _, _.
Qed.

(** C10. A text run opened for the cursor cell or for a joined unit has its
    counter of mergeable cells left at zero and its text written when it is
    created; no later cell extends it: a zero-width cell leaves the local
    variables alone, the next visited cell starts a text run whatever its
    attributes are, and the element of the run is among the text runs of the
    row as it was when it was created. *)
Theorem cursor_or_joined_run_never_extended (sv : Services)
    (this : DomRendererRowFactory) (a : Args) (x : Z) (l : Locals) (w : World) :
  visited a x →
  let i := infoAt sv this a x l w in
  isCursorCell i = true ∨ isJoined i = true →
  let l1 := localsAfter sv this a x l w in
  startsTextRun l l1
  ∧ charCellAmount l1 = 0
  ∧ ∃ e, charElement l1 = Some e
      ∧ textContent e = newCharText sv (cell i)
      ∧ (∀ x2 w2, ¬ visited a x2 → localsAfter sv this a x2 l1 w2 = l1)
      ∧ (∀ x2 w2, visited a x2 →
           startsTextRun l1 (localsAfter sv this a x2 l1 w2)
           ∧ ¬ extendsTextRun (infoAt sv this a x2 l1 w2) l1
                 (localsAfter sv this a x2 l1 w2))
      ∧ (∀ fuel x2 w2 l3 w3,
           createRow_loop sv this a fuel x2 l1 w2 = Some (l3, w3) →
           textRuns l3 !! textRunCount l = Some e).
Proof.
  intros Hv i Hi l1.
  assert (Hc : canMergeCharacters sv l i = false).
  { destruct Hi; [by apply canMergeCharacters_cursor|by apply canMergeCharacters_joined]. }
  destruct (opened_text sv this a x l w Hv Hc) as (Hs & Hel & [e He] & Hz & _).
  fold i l1 in Hs, Hel, He, Hz.
  assert (Hz' : charCellAmount l1 = 0).
  { rewrite Hz. destruct Hi as [-> | ->]; [done|]. by rewrite andb_false_r. }
  split; [done|]. split; [done|]. exists e. split; [done|].
  split.
  { destruct (opened_text_element sv this a x l w Hv Hc)
      as (w0 & p & inv & rb & bo & He').
    fold i l1 in He'.
    assert (e = (newCharElement sv this a w0 i p inv rb bo).1.1) as ->
      by congruence.
    apply newCharElement_textContent.
    destruct Hi as [-> | ->]; [done|apply andb_false_r]. }
  split; [|split].
  - intros x2 w2 Hn. unfold localsAfter. by rewrite skipped_localsAfter.
  - intros x2 w2 Hv2.
    pose proof (canMergeCharacters_zero sv l1 (infoAt sv this a x2 l1 w2) Hz') as Hc2.
    destruct (opened_text sv this a x2 l1 w2 Hv2 Hc2) as (Hs2 & _).
    split; [done|]. intros (Hn & _). unfold startsTextRun in Hs2. lia.
  - intros fuel x2 w2 l3 w3 Hloop.
    assert (Hlen : List.length (charElements l1) = textRunCount l).
    { rewrite Hel. apply length_closed_characters. }
    pose (P := fun (_ : Z) (l' : Locals) (_ : World) =>
      (charElement l' = Some e ∧ charCellAmount l' = 0
       ∧ List.length (charElements l') = textRunCount l)
      ∨ charElements l' !! textRunCount l = Some e).
    assert (Hstep : ∀ x' l' w', x' < lineLength this a → P x' l' w' →
              let r := createRow_cell sv this a x' l' w' in P (r.1.2 + 1) r.1.1 r.2).
    { intros x' l' w' _ [(H1 & H2 & H3)|H]; simpl.
      - destruct (decide (visited a x')) as [Hv'|Hv'].
        2: { rewrite skipped_localsAfter by done. left. done. }
        right.
        pose proof (canMergeCharacters_zero sv l' (infoAt sv this a x' l' w') H2) as Hc'.
        destruct (opened_text sv this a x' l' w' Hv' Hc') as (_ & Hel' & _).
        unfold localsAfter in Hel'. rewrite Hel'.
        unfold closedCharacters, elements_of. rewrite H2, H1. simpl.
        rewrite <- H3. by apply list_lookup_middle.
      - right.
        destruct (charElements_prefix sv this a x' l' w') as [k Hk].
        unfold localsAfter in Hk. rewrite Hk. by apply lookup_app_l_Some. }
    destruct (createRow_loop_invariant sv this a P Hstep fuel x2 l1 w2 l3 w3)
      as (xe & _ & [(H1 & H2 & H3)|H]); [by left|done| |].
    + unfold textRuns, closedCharacters, elements_of. rewrite H2, H1. simpl.
      rewrite <- H3. by apply list_lookup_middle.
    + unfold textRuns, elements_of. by apply lookup_app_l_Some.
Qed.

(** ** The cursor inside a joined range *)

(** When the unit at [x] is joined and the cursor column lies in its range,
    the current cursor column becomes [x]; whether the unit is the cursor
    cell was decided before, from the cursor column as it was. *)
Lemma joined_cursor_relocated sv this a x l w :
  visited a x →
  let i := infoAt sv this a x l w in
  isJoined i = true → x ≤ cursorX' l → cursorX' l ≤ lastCharX i →
  cursorX' (localsAfter sv this a x l w) = x
  ∧ isCursorCell i = isCursorRow a && (x =? cursorX' l).
Proof.
  intros Hv i Hj H1 H2. split; [|done].
  destruct (opened_text sv this a x l w Hv (canMergeCharacters_joined sv l _ Hj))
    as (_ & _ & _ & _ & ->).
  subst i. apply Z.leb_le in H1, H2. by rewrite Hj, H1, H2.
Qed.

(** C7, on the code.  The row starts with the joined range of columns 0 and
    1 and the cursor is on column 1, inside the range: no element of the row
    carries the cursor class.  With the cursor on column 0, the start of the
    range, the joined text run carries the cursor classes. *)
Theorem cursor_inside_joined_range_not_rendered :
  (∃ out w, createRow ligatureServices noSelection (testArgs ligatureRow true 1)
              emptyWorld = Some (out, w)
            ∧ textContent <$> out = [""; "=>"; "a"]
            ∧ Forall (fun e => RowCss.CURSOR_CLASS ∉ classList e) out)
  ∧ (∃ out w, createRow ligatureServices noSelection (testArgs ligatureRow true 0)
                emptyWorld = Some (out, w)
              ∧ textContent <$> out = [""; "=>"; "a"]
              ∧ classList <$> out
                = [["xterm-bg"];
                   [RowCss.CURSOR_CLASS; RowCss.CURSOR_STYLE_BLOCK_CLASS]; []]).
Proof.
  split.
  - eexists _, _. split; [vm_compute; reflexivity|].
    split; [reflexivity|].
    by apply (bool_decide_unpack _).
  - eexists _, _. split; [vm_compute; reflexivity|].
    split; reflexivity.
Qed.

(** ** The decoration scan and the selection *)

Lemma applyDecorations_isTop sv ds : ∀ p,
  isTop (applyDecorations sv ds p)
  = isTop p || existsb (fun r => layer_is_top (decoration sv r)) ds.
Proof.
  unfold applyDecorations.
  induction ds as [|r ds IH]; intros p; simpl.
  - by rewrite orb_false_r.
  - rewrite IH. unfold applyDecoration.
    destruct (layer_is_top (decoration sv r)) eqn:Hl, (isTop p) eqn:Ht; simpl;
      rewrite ?Ht; try done;
      destruct (backgroundColorRGB (decoration sv r)),
        (foregroundColorRGB (decoration sv r)); done.
Qed.

(** C4, as the code has it.  In the scan over the decorations of the cell a
    decoration that is not top-layer is skipped when the flag is set: neither
    its overrides nor its layer are applied.  Any other decoration has its
    background and foreground overrides applied, each forcing the true-colour
    mode, and sets the flag to whether its layer is top.  So the flag, once
    set, stays set to the end of the scan.  The selection overrides are
    applied only when the flag is not set and the cell is selected, and then
    set the flag. *)
Theorem decoration_scan_top_is_sticky (sv : Services) :
  (∀ p r, layer_is_top (decoration sv r) = false → isTop p = true →
     applyDecoration sv p r = p)
  ∧ (∀ p r, layer_is_top (decoration sv r) = true ∨ isTop p = false →
       let d := decoration sv r in
       let p' := applyDecoration sv p r in
       isTop p' = layer_is_top d
       ∧ match backgroundColorRGB d with
         | Some c => bgOverride p' = Some c ∧ paint_bgColorMode p' = CM_RGB
                     ∧ paint_bg p' = band (shr (rgba c) 8) 0xFFFFFF
         | None => bgOverride p' = bgOverride p
                   ∧ paint_bgColorMode p' = paint_bgColorMode p
                   ∧ paint_bg p' = paint_bg p
         end
       ∧ match foregroundColorRGB d with
         | Some c => fgOverride p' = Some c ∧ paint_fgColorMode p' = CM_RGB
                     ∧ paint_fg p' = band (shr (rgba c) 8) 0xFFFFFF
         | None => fgOverride p' = fgOverride p
                   ∧ paint_fgColorMode p' = paint_fgColorMode p
                   ∧ paint_fg p' = paint_fg p
         end)
  ∧ (∀ ds1 ds2 p, isTop (applyDecorations sv ds1 p) = true →
       isTop (applyDecorations sv (ds1 ++ ds2) p) = true)
  ∧ (∀ sel p, isTop p = true ∨ sel = false → applySelection sv sel p = p)
  ∧ (∀ p, isTop p = false →
       let p' := applySelection sv true p in
       let selBg := if isFocused sv then selectionBackgroundOpaque (colors sv)
                    else selectionInactiveBackgroundOpaque (colors sv) in
       isTop p' = true
       ∧ bgOverride p' = Some selBg ∧ paint_bgColorMode p' = CM_RGB
       ∧ paint_bg p' = band (shr (rgba selBg) 8) 0xFFFFFF
       ∧ match selectionForeground (colors sv) with
         | Some c => fgOverride p' = Some c ∧ paint_fgColorMode p' = CM_RGB
                     ∧ paint_fg p' = band (shr (rgba c) 8) 0xFFFFFF
         | None => fgOverride p' = fgOverride p
                   ∧ paint_fgColorMode p' = paint_fgColorMode p
                   ∧ paint_fg p' = paint_fg p
         end).
Proof.
  split; [|split; [|split; [|split]]].
  - intros p r Hl Ht. unfold applyDecoration. by rewrite Hl, Ht.
  - intros p r H d p'. subst d p'. unfold applyDecoration.
    assert (negb (layer_is_top (decoration sv r)) && isTop p = false) as ->.
    { destruct H as [-> | ->]; [done|apply andb_false_r]. }
    destruct (backgroundColorRGB (decoration sv r)),
      (foregroundColorRGB (decoration sv r)); done.
  - intros ds1 ds2 p H. unfold applyDecorations in *.
    rewrite fold_left_app. fold (applyDecorations sv ds1 p).
    fold (applyDecorations sv ds2 (applyDecorations sv ds1 p)).
    rewrite applyDecorations_isTop. unfold applyDecorations. by rewrite H.
  - intros sel p H. unfold applySelection.
    destruct H as [-> | ->]; [done|]. by rewrite andb_false_r.
  - intros p Ht p' selBg. subst p' selBg. unfold applySelection. rewrite Ht. simpl.
    destruct (selectionForeground (colors sv)); done.
Qed.

(** C4 as stated fails: with a top-layer decoration that sets a red
    background followed by a bottom-layer decoration that sets a blue one,
    applying every override in decoration order ends with the blue
    background, while the scan of the code ends with the red one: the
    override of the second decoration is not applied. *)
Lemma later_bottom_decoration_not_applied :
  let sv := mkServices 1 None [] (fun _ => [0%nat; 1%nat]) (fun _ _ _ => None) in
  let p := initialPaint (plainCell "a") in
  backgroundColorRGB (decoration sv 1%nat) = Some blue
  ∧ bgOverride (spec_applyDecorations sv (forEachDecorationAtCell sv 0 0) p) = Some blue
  ∧ bgOverride (applyDecorations sv (forEachDecorationAtCell sv 0 0) p) = Some red.
Proof. repeat split. Qed.

(** ** Minimum contrast and the contrast caches *)

(** C5, as the code has it.  When minimum contrast is enforced, the cache is
    the half-contrast one for a dim cell and the normal one otherwise.  With
    neither a background nor a foreground override the cache is consulted
    for the pair of the background and the foreground; an entry, the marker
    of no adjustment included, is used as it is and nothing is stored.
    Without an entry, and whenever an override is passed, the adjustment is
    computed for the override-aware pair and stored, marker included, under
    the override-aware pair in that cache. *)
Theorem applyMinimumContrast_cache (sv : Services) (w : World)
    (element : HTMLSpanElement) (bg fg : IColor) (c : CellData)
    (bgOverride fgOverride : option IColor) :
  Qeq_bool (minimumContrastRatio sv) 1 = false →
  excludeFromContrastRatioDemands (getCode c) = false →
  let cache := if isDim c then halfContrastCache w else contrastCache w in
  let ratio := (minimumContrastRatio sv / (if isDim c then 2 else 1))%Q in
  let computed :=
    color_ensureContrastRatio sv (default bg bgOverride) (default fg fgOverride) ratio in
  let key := (rgba (default bg bgOverride), rgba (default fg fgOverride)) in
  let stored := contrastCache_setColor w c key.1 key.2 computed in
  let r := _applyMinimumContrast sv w element bg fg c bgOverride fgOverride in
  _getContrastCache w c = cache
  ∧ (bgOverride = None ∧ fgOverride = None →
       match cache !! (rgba bg, rgba fg) with
       | Some adjusted => r = (withAdjusted adjusted element, w)
       | None => r = (withAdjusted computed element, stored)
       end)
  ∧ (is_Some bgOverride ∨ is_Some fgOverride →
       r = (withAdjusted computed element, stored))
  ∧ _getContrastCache stored c = <[key := computed]> cache
  ∧ (if isDim c then contrastCache stored = contrastCache w
     else halfContrastCache stored = halfContrastCache w).
Proof.
  intros Hr He cache ratio computed key stored r.
  subst cache ratio computed key stored r.
  unfold _applyMinimumContrast, lookupAdjusted, _getContrastCache,
    contrastCache_setColor, withAdjusted.
  rewrite Hr, He. simpl.
  split; [done|]. split; [|split].
  - intros [-> ->]. simpl.
    destruct (isDim c).
    + destruct (halfContrastCache w !! (rgba bg, rgba fg)) as [[adj|]|]; simpl; try done.
      by destruct (color_ensureContrastRatio _ _ _ _).
    + destruct (contrastCache w !! (rgba bg, rgba fg)) as [[adj|]|]; simpl; try done.
      by destruct (color_ensureContrastRatio _ _ _ _).
  - intros H.
    assert (negb (is_Some' bgOverride) && negb (is_Some' fgOverride) = false) as ->.
    { destruct H as [[? ->]|[? ->]]; [done|]. apply andb_false_r. }
    simpl. by destruct (color_ensureContrastRatio _ _ _ _).
  - by destruct (isDim c).
Qed.

(** C5 as stated fails: the lookup is also skipped without any decoration
    colour override.  A dim cell with no decoration and no selection has the
    half-opacity background as its override: the entry of the half-contrast
    cache for its colours (red) is not used, the adjustment is computed
    (blue).  The same cell when it is not dim uses the entry of the cache. *)
Lemma dim_cell_skips_cache_lookup :
  forEachDecorationAtCell contrastServices 0 0 = []
  ∧ _isCellInSelection noSelection 0 0 = false
  ∧ halfContrastCache redCachedWorld !! (rgba black, rgba white) = Some (Some red)
  ∧ (∃ out w, createRow contrastServices noSelection (testArgs [dimCell "a"] false 0)
                redCachedWorld = Some (out, w)
              ∧ style_color <$> out = [None; Some (css blue)])
  ∧ (∃ out w, createRow contrastServices noSelection (testArgs [plainCell "a"] false 0)
                redCachedWorld = Some (out, w)
              ∧ style_color <$> out = [None; Some (css red)]).
Proof.
  split; [done|]. split; [done|]. split; [done|]. split.
  - eexists _, _. split; [vm_compute; reflexivity|]. reflexivity.
  - eexists _, _. split; [vm_compute; reflexivity|]. reflexivity.
Qed.

(** Where the background override that [createRow] passes on comes from: a
    decoration, the selection, or the dimming of the cell. *)
Lemma background_override_sources sv a x i resolvedBg :
  let pd := applyDecorations sv (forEachDecorationAtCell sv x (row a))
              (initialPaint (cell i)) in
  is_Some (dimOverride sv (cell i) resolvedBg (bgOverride (resolvePaint sv a x i)))
  ↔ is_Some (bgOverride pd)
    ∨ (isTop pd = false ∧ isInSelection i = true)
    ∨ isDim (cell i) = true.
Proof.
  intros pd. unfold resolvePaint. fold pd. unfold applySelection, dimOverride.
  destruct (isTop pd), (isInSelection i); simpl.
  - destruct (bgOverride pd); [split; [by left|by eexists]|].
    destruct (isDim (cell i)); [split; [by right; right|by eexists]|].
    split; [by intros [? ?]|]. intros [[? ?]|[[? ?]|?]]; done.
  - destruct (bgOverride pd); [split; [by left|by eexists]|].
    destruct (isDim (cell i)); [split; [by right; right|by eexists]|].
    split; [by intros [? ?]|]. intros [[? ?]|[[? ?]|?]]; done.
  - split; [by right; left|].
    intros _. by destruct (selectionForeground (colors sv)); eexists.
  - destruct (bgOverride pd); [split; [by left|by eexists]|].
    destruct (isDim (cell i)); [split; [by right; right|by eexists]|].
    split; [by intros [? ?]|]. intros [[? ?]|[[? ?]|?]]; done.
Qed.

(** ** Background spans *)









(** ** Caches and idempotence *)

Lemma WidthCache_get_consistent sv wc c bold italic :
  widthCacheConsistent sv wc →
  (WidthCache_get sv wc c bold italic).1 = measure sv c bold italic
  ∧ widthCacheConsistent sv (WidthCache_get sv wc c bold italic).2.
Proof.
  unfold WidthCache_get. intros H.
  destruct (wc !! (c, bold, italic)) as [wd|] eqn:Hwc; simpl.
  - split; [by apply H|done].
  - split; [done|]. intros c' b' i' wd'.
    destruct (decide ((c, bold, italic) = (c', b', i'))) as [[= <- <- <-]|Hne].
    + rewrite lookup_insert_eq. by intros [= <-].
    + rewrite lookup_insert_ne by done. apply H.
Qed.

Lemma memoTables_empty sv c :
  memoTables sv {| _workCell := c; contrastCache := ∅; halfContrastCache := ∅;
                   widthCache := ∅ |}.
Proof.
  repeat split; simpl.
  - intros bg fg adj H. by rewrite lookup_empty in H.
  - intros bg fg adj H. by rewrite lookup_empty in H.
  - intros c' b i wd H. by rewrite lookup_empty in H.
Qed.

Lemma contrastCacheConsistent_insert sv dim cache bg fg :
  adjustsByValue sv → contrastCacheConsistent sv dim cache →
  contrastCacheConsistent sv dim
    (<[(rgba bg, rgba fg) :=
         color_ensureContrastRatio sv bg fg
           (minimumContrastRatio sv / (if dim then 2 else 1))%Q]> cache).
Proof.
  intros Hv H bg' fg' adj.
  destruct (decide ((rgba bg, rgba fg) = (rgba bg', rgba fg'))) as [[= H1 H2]|Hne].
  - rewrite <- H1, <- H2, lookup_insert_eq. intros [= <-]. by apply Hv.
  - rewrite lookup_insert_ne by done. apply H.
Qed.

(** With memo tables as caches the outcome of [_applyMinimumContrast] is the
    one computed without any cache, and the caches stay memo tables. *)
Lemma applyMinimumContrast_memo sv w element bg fg c bgOverride fgOverride :
  adjustsByValue sv → memoTables sv w →
  let r := _applyMinimumContrast sv w element bg fg c bgOverride fgOverride in
  r.1 = (if Qeq_bool (minimumContrastRatio sv) 1
            || excludeFromContrastRatioDemands (getCode c)
         then (false, element)
         else withAdjusted
                (color_ensureContrastRatio sv (default bg bgOverride)
                   (default fg fgOverride)
                   (minimumContrastRatio sv / (if isDim c then 2 else 1))%Q)
                element)
  ∧ memoTables sv r.2.
Proof.
  intros Hv (Hc & Hh & Hw). unfold _applyMinimumContrast.
  destruct (Qeq_bool (minimumContrastRatio sv) 1
            || excludeFromContrastRatioDemands (getCode c)); simpl; [done|].
  destruct (lookupAdjusted w bg fg c bgOverride fgOverride) as [adj|] eqn:Hl;
    cbn [fst snd].
  - assert (adj = color_ensureContrastRatio sv (default bg bgOverride)
                    (default fg fgOverride)
                    (minimumContrastRatio sv / (if isDim c then 2 else 1))%Q) as ->.
    { revert Hl. unfold lookupAdjusted, _getContrastCache.
      destruct bgOverride, fgOverride; try done. simpl.
      destruct (isDim c); [apply Hh|apply Hc]. }
    unfold withAdjusted. by destruct (color_ensureContrastRatio _ _ _ _).
  - split.
    + unfold withAdjusted. by destruct (color_ensureContrastRatio _ _ _ _).
    + assert (memoTables sv
                (contrastCache_setColor w c (rgba (default bg bgOverride))
                   (rgba (default fg fgOverride))
                   (color_ensureContrastRatio sv (default bg bgOverride)
                      (default fg fgOverride)
                      (minimumContrastRatio sv / (if isDim c then 2 else 1))%Q))).
      { unfold contrastCache_setColor.
        destruct (isDim c); (split; [|split]); simpl; try done;
          by apply contrastCacheConsistent_insert. }
      by destruct (color_ensureContrastRatio _ _ _ _).
Qed.

Lemma applyMinimumContrast_worlds sv w1 w2 element bg fg c bgOverride fgOverride :
  adjustsByValue sv → memoTables sv w1 → memoTables sv w2 →
  (_applyMinimumContrast sv w1 element bg fg c bgOverride fgOverride).1
  = (_applyMinimumContrast sv w2 element bg fg c bgOverride fgOverride).1
  ∧ memoTables sv (_applyMinimumContrast sv w1 element bg fg c bgOverride fgOverride).2.
Proof.
  intros Hv H1 H2.
  destruct (applyMinimumContrast_memo sv w1 element bg fg c bgOverride fgOverride Hv H1)
    as [-> ?].
  destruct (applyMinimumContrast_memo sv w2 element bg fg c bgOverride fgOverride Hv H2)
    as [-> ?].
  done.
Qed.

Lemma foregroundPaint_worlds sv w1 w2 i p isInverse resolvedBg bgOverride e :
  adjustsByValue sv → memoTables sv w1 → memoTables sv w2 →
  (foregroundPaint sv w1 i p isInverse resolvedBg bgOverride e).1
  = (foregroundPaint sv w2 i p isInverse resolvedBg bgOverride e).1
  ∧ memoTables sv (foregroundPaint sv w1 i p isInverse resolvedBg bgOverride e).2.
Proof.
  intros Hv H1 H2. unfold foregroundPaint.
  destruct (paint_fgColorMode p); cbn [fst snd];
    match goal with |- context [_applyMinimumContrast sv w1 ?el ?b ?f ?c ?bo ?fo] =>
      destruct (applyMinimumContrast_worlds sv w1 w2 el b f c bo fo Hv H1 H2)
        as [-> ?] end; done.
Qed.

Lemma newCharElement_worlds sv this a w1 w2 i p isInverse resolvedBg bgOverride :
  adjustsByValue sv → memoTables sv w1 → memoTables sv w2 →
  (newCharElement sv this a w1 i p isInverse resolvedBg bgOverride).1
  = (newCharElement sv this a w2 i p isInverse resolvedBg bgOverride).1
  ∧ memoTables sv (newCharElement sv this a w1 i p isInverse resolvedBg bgOverride).2.
Proof.
  intros Hv H1 H2. unfold newCharElement. cbn [fst snd].
  match goal with |- context [foregroundPaint sv w1 ?i ?p ?inv ?rb ?bo ?e] =>
    destruct (foregroundPaint_worlds sv w1 w2 i p inv rb bo e Hv H1 H2) as [-> ?] end.
  done.
Qed.

Lemma cellInfo_worlds sv this a x l w1 w2 :
  _workCell w1 = _workCell w2 →
  widthCacheConsistent sv (widthCache w1) → widthCacheConsistent sv (widthCache w2) →
  (cellInfo sv this a x l w1).1 = (cellInfo sv this a x l w2).1
  ∧ widthCacheConsistent sv (cellInfo sv this a x l w1).2.
Proof.
  intros Hc H1 H2. unfold cellInfo. cbn [fst snd]. rewrite Hc.
  match goal with |- context [WidthCache_get sv (widthCache w1) ?c ?b ?it] =>
    destruct (WidthCache_get_consistent sv (widthCache w1) c b it H1) as [-> ?];
    destruct (WidthCache_get_consistent sv (widthCache w2) c b it H2) as [-> ?]
  end.
  done.
Qed.

(** An iteration does the same to the local variables and to the column in
    any two worlds whose caches are memo tables, and leaves memo tables. *)
Lemma createRow_cell_worlds sv this a x l w1 w2 :
  adjustsByValue sv → memoTables sv w1 → memoTables sv w2 →
  (createRow_cell sv this a x l w1).1 = (createRow_cell sv this a x l w2).1
  ∧ memoTables sv (createRow_cell sv this a x l w1).2.
Proof.
  intros Hv (Hc1 & Hh1 & Hw1) (Hc2 & Hh2 & Hw2). unfold createRow_cell.
  cbn [_workCell set_world_workCell].
  destruct (getWidth (loadCell (lineData a) x) =? 0); [done|].
  destruct (cellInfo_worlds sv this a x l
              (set_world_workCell (loadCell (lineData a) x) w1)
              (set_world_workCell (loadCell (lineData a) x) w2))
    as [-> Hw1']; [done|done|done|].
  destruct (cellInfo_worlds sv this a x l
              (set_world_workCell (loadCell (lineData a) x) w2)
              (set_world_workCell (loadCell (lineData a) x) w1))
    as [_ Hw2']; [done|done|done|].
  set (ci := (cellInfo sv this a x l
                (set_world_workCell (loadCell (lineData a) x) w2)).1).
  set (wa := set_world_widthCache _ (set_world_workCell _ w1)).
  set (wb := set_world_widthCache _ (set_world_workCell _ w2)).
  assert (Ha : memoTables sv wa) by done.
  assert (Hb : memoTables sv wb) by done.
  destruct (canMergeCharacters sv l ci.1), (canMergeBackground l ci.1);
    cbn [andb fst snd]; try done.
  - match goal with |- context [newCharElement sv this a wa ?i ?p ?inv ?rb ?bo] =>
      destruct (newCharElement_worlds sv this a wa wb i p inv rb bo Hv Ha Hb) as [-> ?]
    end. done.
  - match goal with |- context [newCharElement sv this a wa ?i ?p ?inv ?rb ?bo] =>
      destruct (newCharElement_worlds sv this a wa wb i p inv rb bo Hv Ha Hb) as [-> ?]
    end. done.
Qed.

Lemma createRow_loop_worlds sv this a fuel : ∀ x l w1 w2 l' w1',
  adjustsByValue sv → memoTables sv w1 → memoTables sv w2 →
  createRow_loop sv this a fuel x l w1 = Some (l', w1') →
  memoTables sv w1'
  ∧ ∃ w2', createRow_loop sv this a fuel x l w2 = Some (l', w2').
Proof.
  induction fuel as [|fuel IH]; intros x l w1 w2 l' w1' Hv H1 H2; simpl.
  - destruct (x <? lineLength this a); [done|]. intros [= <- <-]. eauto.
  - destruct (x <? lineLength this a); [|intros [= <- <-]; eauto].
    destruct (createRow_cell_worlds sv this a x l w1 w2 Hv H1 H2) as [He Hm1].
    destruct (createRow_cell_worlds sv this a x l w2 w1 Hv H2 H1) as [_ Hm2].
    rewrite He. by apply IH.
Qed.

(** C9. With caches that are memo tables of the contrast adjustment and of
    the measurement (as empty caches are, and as [createRow] leaves them),
    rendering the row a second time, in the world that the first rendering
    left, returns the same list of elements. *)
Theorem createRow_idempotent (sv : Services) (this : DomRendererRowFactory)
    (a : Args) (w : World) :
  adjustsByValue sv → memoTables sv w →
  ∃ out w1 w2,
    createRow sv this a w = Some (out, w1)
    ∧ createRow sv this a w1 = Some (out, w2)
    ∧ memoTables sv w1.
Proof.
  intros Hv Hm. unfold createRow.
  destruct (createRow_loop_terminates sv this a
              (loop_fuel (lineLength this a) 0 (joinedRanges (initialLocals sv a)))
              0 (initialLocals sv a) w) as [[l' w1] Hloop]; [done|].
  destruct (createRow_loop_worlds sv this a _ _ _ w w l' w1 Hv Hm Hm Hloop)
    as [Hm1 _].
  destruct (createRow_loop_worlds sv this a _ _ _ w w1 l' w1 Hv Hm Hm1 Hloop)
    as [_ [w2 Hloop2]].
  exists (backgroundRuns a l' ++ textRuns l'), w1, w2.
  by rewrite Hloop, Hloop2.
Qed.

(** ** The elements behind the counters *)

(** C1 and C2 read "a run is open" as the code does: an element exists and
    its counter is not zero.  The counters of the rows that [createRow]
    renders are never ahead of their elements. *)
Lemma createRow_cell_elementsDefined sv this a x l w :
  visited a x → elementsDefined (localsAfter sv this a x l w).
Proof.
  intros Hv. split.
  - destruct (canMergeCharacters sv l (infoAt sv this a x l w)) eqn:Hc.
    + destruct (merged_text sv this a x l w Hv Hc) as [(_ & _ & -> & _) _].
      apply canMergeCharacters_true in Hc as [[? _] _]. done.
    + destruct (opened_text sv this a x l w Hv Hc) as (_ & _ & ? & _). done.
  - destruct (canMergeBackground l (infoAt sv this a x l w)) eqn:Hc.
    + destruct (merged_background sv this a x l w Hv Hc) as (_ & _ & -> & _).
      apply canMergeBackground_true in Hc as [[? _] _]. done.
    + destruct (opened_background sv this a x l w Hv Hc) as (_ & _ & ? & _). done.
Qed.

Lemma createRow_loop_elementsDefined sv this a fuel w l' w' :
  createRow_loop sv this a fuel 0 (initialLocals sv a) w = Some (l', w') →
  elementsDefined l'.
Proof.
  intros Hloop.
  destruct (createRow_loop_invariant sv this a (fun _ l _ => elementsDefined l))
    with (fuel := fuel) (x := 0) (l := initialLocals sv a) (w := w) (l' := l') (w' := w')
    as (_ & _ & H); [|by split|done|done].
  intros x l w0 _ Hl. simpl.
  destruct (decide (visited a x)) as [Hv|Hv].
  - by apply createRow_cell_elementsDefined.
  - by rewrite skipped_localsAfter.
Qed.

(** ** The examples of the specification *)

(** Three plain cells [a]: one background run from column 0 over three
    cells, one text run [aaa]. *)
Example createRow_aaa :
  fst <$> createRow (testServices 1 None) noSelection
            (testArgs [plainCell "a"; plainCell "a"; plainCell "a"] false 0) emptyWorld
  = Some [set_style_width 30 (set_style_left 0 (classList_add "xterm-bg" createElement_span));
          set_textContent "aaa" createElement_span].
Proof. vm_compute. reflexivity. Qed.

(** The cursor on column 2 of an empty row: the effective length is 3 and
    the cursor cell is rendered. *)
Example createRow_cursor_beyond_trimmed_length :
  lineLength noSelection (testArgs [] true 2) = 3
  ∧ ∃ out w, createRow (testServices 1 None) noSelection (testArgs [] true 2)
               emptyWorld = Some (out, w)
             ∧ classList <$> out
               = [["xterm-bg"]; []; [RowCss.CURSOR_CLASS; RowCss.CURSOR_STYLE_BLOCK_CLASS]]
             ∧ textContent <$> out = [""; "  "; " "].
Proof.
  split; [reflexivity|].
  eexists _, _. split; [vm_compute; reflexivity|]. split; reflexivity.
Qed.

(** A change of the foreground attribute alone, outside any selection: the
    background run goes on over both cells, a text run starts at column 1. *)
Example createRow_foreground_change :
  ∃ out w, createRow (testServices 1 None) noSelection
             (testArgs [fgCell "a" 1; fgCell "b" 4] false 0) emptyWorld = Some (out, w)
           ∧ textContent <$> out = [""; "a"; "b"]
           ∧ style_width <$> out = [Some 20; None; None]
           ∧ classList <$> out = [["xterm-bg"]; ["xterm-fg-1"]; ["xterm-fg-4"]].
Proof.
  eexists _, _. split; [vm_compute; reflexivity|]. repeat split.
Qed.

(** ** Instances *)




(** C5 on a cell that is not dim, with neither override: the entry of the
    normal cache is used and the world is left as it was. *)
Lemma applyMinimumContrast_cache_witness :
  Qeq_bool (minimumContrastRatio contrastServices) 1 = false
  ∧ excludeFromContrastRatioDemands (getCode (plainCell "a")) = false
  ∧ _applyMinimumContrast contrastServices redCachedWorld createElement_span
      black white (plainCell "a") None None
    = (true, set_style_color (css red) createElement_span, redCachedWorld).
Proof.
  assert (H1 : Qeq_bool (minimumContrastRatio contrastServices) 1 = false)
    by reflexivity.
  assert (H2 : excludeFromContrastRatioDemands (getCode (plainCell "a")) = false)
    by reflexivity.
  split; [exact H1|]. split; [exact H2|].
  exact (proj1 (proj2 (applyMinimumContrast_cache contrastServices redCachedWorld
                         createElement_span black white (plainCell "a") None None
                         H1 H2)) (conj eq_refl eq_refl)).
Defined.


(** C9 on the row [aa] with minimum contrast enforced and empty caches. *)
Lemma createRow_idempotent_witness :
  let a := testArgs [plainCell "a"; plainCell "a"] false 0 in
  adjustsByValue contrastServices
  ∧ memoTables contrastServices emptyWorld
  ∧ ∃ out w1 w2,
      createRow contrastServices noSelection a emptyWorld = Some (out, w1)
      ∧ createRow contrastServices noSelection a w1 = Some (out, w2)
      ∧ memoTables contrastServices w1.
Proof.
  intros a.
  assert (Hv : adjustsByValue contrastServices) by (intros ? ? ? ? ? _ _; reflexivity).
  assert (Hm : memoTables contrastServices emptyWorld) by apply memoTables_empty.
  split; [exact Hv|]. split; [exact Hm|].
  exact (createRow_idempotent contrastServices noSelection a emptyWorld Hv Hm).
Defined.

(** C10 on the row [abc] with the cursor on column 1: the cell at column 1
    is the cursor cell, it starts a text run with the counter at zero. *)
Lemma cursor_or_joined_run_never_extended_witness :
  let sv := testServices 1 None in
  let a := testArgs [plainCell "a"; plainCell "b"; plainCell "c"] true 1 in
  let l := afterFirstCell sv noSelection a in
  visited a 1
  ∧ isCursorCell (infoAt sv noSelection a 1 l emptyWorld) = true
  ∧ startsTextRun l (localsAfter sv noSelection a 1 l emptyWorld)
  ∧ charCellAmount (localsAfter sv noSelection a 1 l emptyWorld) = 0.
Proof.
  intros sv a l.
  assert (Hv : visited a 1) by (vm_compute; discriminate).
  assert (Hc : isCursorCell (infoAt sv noSelection a 1 l emptyWorld) = true)
    by reflexivity.
  split; [exact Hv|]. split; [exact Hc|].
  destruct (cursor_or_joined_run_never_extended sv noSelection a 1 l emptyWorld Hv
              (or_introl Hc)) as (H1 & H2 & _).
  split; [exact H1|exact H2].
Defined.

(** * Further properties of the row factory *)

(** ** Selection *)

(** X1. A cell that is in the selection lies on a row that is in the
    selection: the rows of all selected cells are rendered in their full
    length. *)
Theorem cell_in_selection_row_in_selection (this : DomRendererRowFactory) (x y : Z) :
  _isCellInSelection this x y = true → _isRowInSelection this y = true.
Proof.
  unfold _isCellInSelection, _isRowInSelection.
  destruct (_selectionStart this) as [[sx sy]|]; [|done].
  destruct (_selectionEnd this) as [[ex ey]|]; [|done]. simpl.
  destruct (_columnSelectMode this).
  - destruct (sx <=? ex);
      rewrite !andb_true_iff, !Z.leb_le, ?Z.ltb_lt; lia.
  - rewrite !orb_true_iff, !andb_true_iff, !Z.leb_le, !Z.ltb_lt, !Z.eqb_eq. lia.
Qed.

Lemma cell_in_selection_row_in_selection_witness :
  _isCellInSelection selectedRow 2 0 = true ∧ _isRowInSelection selectedRow 0 = true.
Proof.
  assert (H : _isCellInSelection selectedRow 2 0 = true) by reflexivity.
  split; [exact H|].
  exact (cell_in_selection_row_in_selection selectedRow 2 0 H).
Defined.

(** X2. In column-select mode the two endpoint columns may come in either
    order: swapping them selects the same cells. *)
Theorem column_selection_swap_columns (sx sy ex ey ds x y : Z) :
  _isCellInSelection
    {| _selectionStart := Some (sx, sy); _selectionEnd := Some (ex, ey);
       _columnSelectMode := true; defaultSpacing := ds |} x y
  = _isCellInSelection
      {| _selectionStart := Some (ex, sy); _selectionEnd := Some (sx, ey);
         _columnSelectMode := true; defaultSpacing := ds |} x y.
Proof.
  unfold _isCellInSelection. simpl.
  destruct (Z.leb_spec sx ex), (Z.leb_spec ex sx);
    apply eq_true_iff_eq;
    rewrite !andb_true_iff, !Z.leb_le, !Z.ltb_lt; lia.
Qed.

(** X3. Selections without extent select no cell: a selection whose end row
    is above its start row (in both modes), a stream selection on one row
    whose end column is not right of its start column, and a column
    selection between equal columns. *)
Theorem degenerate_selection_selects_nothing (sx sy ex ey ds : Z) (mode : bool) (x y : Z) :
  ey < sy ∨ (mode = false ∧ sy = ey ∧ ex ≤ sx) ∨ (mode = true ∧ sx = ex) →
  _isCellInSelection
    {| _selectionStart := Some (sx, sy); _selectionEnd := Some (ex, ey);
       _columnSelectMode := mode; defaultSpacing := ds |} x y = false.
Proof.
  intros H. apply not_true_is_false. unfold _isCellInSelection. simpl.
  destruct mode.
  - destruct (sx <=? ex);
      rewrite !andb_true_iff, !Z.leb_le, ?Z.ltb_lt; lia.
  - rewrite !orb_true_iff, !andb_true_iff, !Z.leb_le, !Z.ltb_lt, !Z.eqb_eq. lia.
Qed.

Lemma degenerate_selection_selects_nothing_witness :
  (3 < 5 ∨ (false = false ∧ 5 = 3 ∧ 9 ≤ 0) ∨ (false = true ∧ 0 = 9))
  ∧ _isCellInSelection
      {| _selectionStart := Some (0, 5); _selectionEnd := Some (9, 3);
         _columnSelectMode := false; defaultSpacing := 0 |} 4 4 = false.
Proof.
  assert (H : 3 < 5 ∨ (false = false ∧ 5 = 3 ∧ 9 ≤ 0) ∨ (false = true ∧ 0 = 9))
    by (left; lia).
  split; [exact H|].
  exact (degenerate_selection_selects_nothing 0 5 9 3 0 false 4 4 H).
Defined.

(** ** Decoration lists *)

(** X4. [_isSameDecorations] decides the equality of the two lists of
    references: same references, in the same order, nothing more on either
    side. *)
Theorem isSameDecorations_eq (decos1 decos2 : list DecorationRef) :
  _isSameDecorations decos1 decos2 = true ↔ decos1 = decos2.
Proof. by rewrite isSameDecorations_true, sameDecorationList_eq. Qed.

(** ** padStart *)

Lemma string_length_app (s1 s2 : string) :
  String.length (s1 +:+ s2) = (String.length s1 + String.length s2)%nat.
Proof.
  induction s1 as [|c s1 IH]; [done|].
  change (String c s1 +:+ s2) with (String c (s1 +:+ s2)). simpl. by rewrite IH.
Qed.

Lemma string_app_assoc (s1 s2 s3 : string) : (s1 +:+ s2) +:+ s3 = s1 +:+ (s2 +:+ s3).
Proof.
  induction s1 as [|c s1 IH]; [done|].
  change ((String c s1 +:+ s2) +:+ s3) with (String c ((s1 +:+ s2) +:+ s3)).
  change (String c s1 +:+ s2 +:+ s3) with (String c (s1 +:+ s2 +:+ s3)).
  by rewrite IH.
Qed.

Lemma string_app_empty_r (s : string) : s +:+ "" = s.
Proof.
  induction s as [|c s IH]; [done|].
  change (String c s +:+ "") with (String c (s +:+ "")). by rewrite IH.
Qed.

Lemma repeat_string_S_r k s : repeat_string (S k) s = repeat_string k s +:+ s.
Proof.
  induction k as [|k IH].
  - simpl. apply string_app_empty_r.
  - change (repeat_string (S (S k)) s) with (s +:+ repeat_string (S k) s).
    rewrite IH at 1. change (repeat_string (S k) s) with (s +:+ repeat_string k s).
    by rewrite string_app_assoc.
Qed.

Lemma padStart_loop_spec padChar len fuel : ∀ text,
  padChar ≠ "" →
  (len - String.length text ≤ fuel)%nat →
  ∃ k, padStart_loop fuel text padChar len = repeat_string k padChar +:+ text
       ∧ (len ≤ String.length (repeat_string k padChar +:+ text))%nat
       ∧ (k = O
          ∨ (String.length (repeat_string k padChar +:+ text)
             < len + String.length padChar)%nat).
Proof.
  intros text Hp. revert text.
  assert (Hlen : (0 < String.length padChar)%nat) by (destruct padChar; simpl; [done|lia]).
  induction fuel as [|fuel IH]; intros text Hf; simpl.
  - destruct (Nat.ltb_spec (String.length text) len); [lia|].
    exists O. simpl. split; [done|]. split; [done|by left].
  - destruct (Nat.ltb_spec (String.length text) len) as [Hlt|Hge].
    + destruct (IH (padChar +:+ text)) as (k & Hk & Hl & Hb).
      { rewrite string_length_app. lia. }
      exists (S k). rewrite repeat_string_S_r, string_app_assoc.
      split; [done|]. split; [done|]. right.
      destruct Hb as [-> | Hb]; [|done].
      rewrite !string_length_app. simpl. lia.
    + exists O. simpl. split; [done|]. split; [done|by left].
Qed.

(** X5. With a pad that is not the empty string, [padStart] returns the
    text behind a whole number of copies of the pad: as few as make the
    result [len] characters long at least.  A text that is long enough comes
    back as it is; the result is never cut to [len], so that a pad of several
    characters can make it longer than [len]. *)
Theorem padStart_spec (text padChar : string) (len : nat) :
  padChar ≠ "" →
  ∃ k, padStart text padChar len = repeat_string k padChar +:+ text
       ∧ (len ≤ String.length (padStart text padChar len))%nat
       ∧ ((len ≤ String.length text)%nat → k = O)
       ∧ (k = O
          ∨ (String.length (padStart text padChar len)
             < len + String.length padChar)%nat).
Proof.
  intros Hp. unfold padStart.
  destruct (padStart_loop_spec padChar len len text Hp) as (k & Hk & Hl & Hb); [lia|].
  exists k. rewrite Hk. split; [done|]. split; [done|]. split; [|done].
  intros Hge. destruct Hb as [Hb|Hb]; [done|].
  destruct k as [|k]; [done|]. exfalso.
  rewrite repeat_string_S_r, string_app_assoc, string_length_app in Hb.
  rewrite !string_length_app in Hb. lia.
Qed.

Lemma padStart_spec_witness :
  "0"%string ≠ ""%string
  ∧ padStart "ff" "0" 6 = "0000ff"%string
  ∧ String.length (padStart "ff" "ab" 5) = 6%nat.
Proof.
  assert (H : "0"%string ≠ ""%string) by discriminate.
  split; [exact H|].
  destruct (padStart_spec "ff" "0" 6 H) as (k & Hk & _).
  split; reflexivity.
Defined.

(** ** Invariants of a whole row *)

(** A property of the local variables and the world that holds when the loop
    starts and that every iteration keeps holds of what [createRow] returns
    from. *)
Lemma createRow_invariant sv this a w (P : Locals → World → Prop) :
  P (initialLocals sv a) w →
  (∀ x l w0, x < lineLength this a → P l w0 →
     P (createRow_cell sv this a x l w0).1.1 (createRow_cell sv this a x l w0).2) →
  ∃ l' w', createRow sv this a w = Some (backgroundRuns a l' ++ textRuns l', w')
           ∧ P l' w'.
Proof.
  intros Hinit Hstep. unfold createRow.
  destruct (createRow_loop_terminates sv this a
              (loop_fuel (lineLength this a) 0 (joinedRanges (initialLocals sv a)))
              0 (initialLocals sv a) w) as [[l' w'] Hloop]; [done|].
  rewrite Hloop. exists l', w'. split; [done|].
  destruct (createRow_loop_invariant sv this a (fun _ l0 w0 => P l0 w0)
              (fun x l0 w0 Hx HP => Hstep x l0 w0 Hx HP) _ _ _ _ _ _ Hinit Hloop)
    as (_ & _ & H). done.
Qed.

(** ** Rows with nothing to render *)

(** X6. A row whose effective length is zero (or less) renders to no
    element at all, and leaves the scratch cell and the caches as they
    were. *)
Theorem createRow_empty_row (sv : Services) (this : DomRendererRowFactory)
    (a : Args) (w : World) :
  lineLength this a ≤ 0 → createRow sv this a w = Some ([], w).
Proof.
  intros H. unfold createRow.
  assert (Hloop : ∀ fuel l, createRow_loop sv this a fuel 0 l w = Some (l, w)).
  { intros fuel l. destruct fuel; simpl;
      destruct (Z.ltb_spec 0 (lineLength this a)); (lia || done). }
  by rewrite Hloop.
Qed.

Lemma createRow_empty_row_witness :
  lineLength noSelection (testArgs [] false 0) ≤ 0
  ∧ createRow (testServices 1 None) noSelection (testArgs [] false 0) emptyWorld
    = Some ([], emptyWorld).
Proof.
  assert (H : lineLength noSelection (testArgs [] false 0) ≤ 0)
    by (vm_compute; discriminate).
  split; [exact H|].
  exact (createRow_empty_row (testServices 1 None) noSelection (testArgs [] false 0)
           emptyWorld H).
Defined.

(** ** Joined units *)

Lemma infoAt_joined sv this a x l w range rest :
  joinedRanges l = range :: rest → x = range.1 →
  let i := infoAt sv this a x l w in
  isJoined i = true
  ∧ lastCharX i = range.2 - 1
  ∧ width i = range.2 - range.1
  ∧ cell i = JoinedCellData (loadCell (lineData a) x)
               (translateToString (lineData a) true range.1 range.2)
               (range.2 - range.1).
Proof.
  intros Hr Hx. unfold infoAt, cellInfo. simpl. rewrite Hr.
  destruct (Z.eqb_spec x range.1); done.
Qed.

(** X7. When the first pending joined range starts at the visited column,
    the iteration takes the range off the list, starts a text run for the
    whole range and leaves the loop at the end of the range.  The text of
    the run is the translated string of the range, unless the cell is
    invisible or that string is empty or one space. *)
Theorem joined_range_rendered_as_one_run (sv : Services) (this : DomRendererRowFactory)
    (a : Args) (x : Z) (l : Locals) (w : World) (range : Z * Z) (rest : list (Z * Z)) :
  visited a x →
  joinedRanges l = range :: rest → x = range.1 →
  let r := createRow_cell sv this a x l w in
  let text := translateToString (lineData a) true range.1 range.2 in
  joinedRanges r.1.1 = rest
  ∧ r.1.2 + 1 = range.2
  ∧ startsTextRun l r.1.1
  ∧ ∃ e, charElement r.1.1 = Some e
         ∧ (isInvisible (loadCell (lineData a) x) = false →
            text ≠ "" → text ≠ " " → textContent e = text).
Proof.
  intros Hv Hr Hx r text. subst r text.
  destruct (infoAt_joined sv this a x l w range rest Hr Hx) as (Hj & _ & _ & Hcell).
  pose proof (canMergeCharacters_joined sv l _ Hj) as Hc.
  destruct (createRow_cell_position sv this a x l w)
    as [(_ & _ & Hnj)|(range' & Hr' & _ & Hpos & _)].
  { rewrite (Hnj Hv) in Hj. done. }
  rewrite Hr in Hr'. injection Hr' as <- Hrest.
  destruct (opened_text sv this a x l w Hv Hc) as (Hs & _ & [e He] & _).
  destruct (opened_text_element sv this a x l w Hv Hc)
    as (w0 & p & inv & rb & bo & He').
  unfold localsAfter in *.
  split; [done|]. split; [lia|]. split; [done|].
  exists e. split; [done|]. intros Hinv Hne Hsp.
  assert (e = (newCharElement sv this a w0 (infoAt sv this a x l w) p inv rb bo).1.1)
    as -> by congruence.
  rewrite newCharElement_textContent by (rewrite Hj; apply andb_false_r).
  rewrite Hcell. unfold newCharText. simpl. rewrite Hinv.
  unfold or_string, nbsp_if_space.
  destruct (String.eqb_spec (translateToString (lineData a) true range.1 range.2) "");
    [done|].
  destruct (String.eqb_spec (translateToString (lineData a) true range.1 range.2) " ");
    [done|].
  apply String.eqb_neq in Hsp.
  by destruct (isUnderline _), (isOverline _); rewrite ?Hsp.
Qed.

Lemma joined_range_rendered_as_one_run_witness :
  let a := testArgs ligatureRow false 0 in
  let l := initialLocals ligatureServices a in
  visited a 0
  ∧ joinedRanges l = [(0, 2)]
  ∧ (createRow_cell ligatureServices noSelection a 0 l emptyWorld).1.2 + 1 = 2
  ∧ textContent <$> charElement
      (createRow_cell ligatureServices noSelection a 0 l emptyWorld).1.1 = Some "=>".
Proof.
  intros a l.
  assert (Hv : visited a 0) by (vm_compute; discriminate).
  assert (Hr : joinedRanges l = [(0, 2)]) by reflexivity.
  destruct (joined_range_rendered_as_one_run ligatureServices noSelection a 0 l
              emptyWorld (0, 2) [] Hv Hr eq_refl) as (_ & Hpos & _).
  split; [exact Hv|]. split; [exact Hr|]. split; [exact Hpos|]. reflexivity.
Defined.

(** ** Minimum contrast switched off *)

Lemma applyMinimumContrast_off sv w element bg fg c bgOverride fgOverride :
  Qeq_bool (minimumContrastRatio sv) 1 = true →
  _applyMinimumContrast sv w element bg fg c bgOverride fgOverride = (false, element, w).
Proof. intros H. unfold _applyMinimumContrast. by rewrite H. Qed.

Lemma createRow_cell_contrast_off sv this a x l w :
  Qeq_bool (minimumContrastRatio sv) 1 = true →
  contrastCache (createRow_cell sv this a x l w).2 = contrastCache w
  ∧ halfContrastCache (createRow_cell sv this a x l w).2 = halfContrastCache w.
Proof.
  intros H. unfold createRow_cell. simpl.
  destruct (getWidth (loadCell (lineData a) x) =? 0); [done|].
  case_canMergeCharacters; case_canMergeBackground; simpl; try done;
    unfold newCharElement, foregroundPaint; cbn [fst snd];
    destruct (paint_fgColorMode _); cbn [fst snd];
    by rewrite applyMinimumContrast_off.
Qed.

(** X8. With the minimum contrast ratio at 1 (contrast enforcement switched
    off) rendering a row comes to an end and writes to neither contrast
    cache: both are, after the row, what they were before. *)
Theorem createRow_contrast_off_keeps_caches (sv : Services)
    (this : DomRendererRowFactory) (a : Args) (w : World) :
  Qeq_bool (minimumContrastRatio sv) 1 = true →
  ∃ out w', createRow sv this a w = Some (out, w')
            ∧ contrastCache w' = contrastCache w
            ∧ halfContrastCache w' = halfContrastCache w.
Proof.
  intros H.
  destruct (createRow_invariant sv this a w
              (fun _ w0 => contrastCache w0 = contrastCache w
                           ∧ halfContrastCache w0 = halfContrastCache w))
    as (l' & w' & Hrow & Hc).
  - done.
  - intros x l w0 _ [H1 H2].
    destruct (createRow_cell_contrast_off sv this a x l w0 H) as [-> ->]. done.
  - by exists (backgroundRuns a l' ++ textRuns l'), w'.
Qed.

Lemma createRow_contrast_off_keeps_caches_witness :
  Qeq_bool (minimumContrastRatio (testServices 1 None)) 1 = true
  ∧ ∃ out w', createRow (testServices 1 None) noSelection
                (testArgs [dimCell "a"; plainCell "b"] false 0) redCachedWorld
              = Some (out, w')
              ∧ contrastCache w' = contrastCache redCachedWorld
              ∧ halfContrastCache w' = halfContrastCache redCachedWorld.
Proof.
  assert (H : Qeq_bool (minimumContrastRatio (testServices 1 None)) 1 = true)
    by reflexivity.
  split; [exact H|].
  exact (createRow_contrast_off_keeps_caches (testServices 1 None) noSelection
           (testArgs [dimCell "a"; plainCell "b"] false 0) redCachedWorld H).
Defined.

(** ** The elements of the two layers *)

Lemma opened_background_new sv this a x l w :
  visited a x →
  canMergeBackground l (infoAt sv this a x l w) = false →
  backgroundElement (localsAfter sv this a x l w)
  = Some (newBackgroundElement sv a x (isInverse (cell (infoAt sv this a x l w)))
            (resolvePaint sv a x (infoAt sv this a x l w))).
Proof.
  unfold visited, localsAfter, createRow_cell, infoAt.
  intros Hv Hc. simpl in *.
  destruct (Z.eqb_spec (getWidth (loadCell (lineData a) x)) 0); [done|].
  rewrite Hc. rewrite andb_false_r.
  case_canMergeCharacters; done.
Qed.

Lemma newBackgroundElement_fields sv a x isInverse p :
  isBackgroundElement (newBackgroundElement sv a x isInverse p)
  ∧ style_left (newBackgroundElement sv a x isInverse p) = Some (cellWidth a * x)
  ∧ style_width (newBackgroundElement sv a x isInverse p) = None.
Proof.
  unfold newBackgroundElement, isBackgroundElement.
  destruct (paint_bgColorMode p); [destruct isInverse| | |];
    simpl; repeat split; by eauto.
Qed.

Lemma applyMinimumContrast_element sv w element bg fg c bgOverride fgOverride :
  let e := (_applyMinimumContrast sv w element bg fg c bgOverride fgOverride).1.2 in
  e = element ∨ ∃ v, e = set_style_color v element.
Proof.
  unfold _applyMinimumContrast.
  destruct (Qeq_bool _ 1 || excludeFromContrastRatioDemands _); simpl; [by left|].
  destruct (lookupAdjusted _ _ _ _ _ _) as [[adj|]|]; simpl; eauto.
  destruct (color_ensureContrastRatio _ _ _ _); simpl; eauto.
Qed.

(** What the foreground resolution does to the element: nothing but the
    colour is written. *)
Lemma foregroundPaint_element sv w i p isInverse resolvedBg bgOverride e :
  let e' := (foregroundPaint sv w i p isInverse resolvedBg bgOverride e).1.1 in
  e' = e ∨ ∃ v, e' = set_style_color v e.
Proof.
  unfold foregroundPaint.
  destruct (paint_fgColorMode p); cbn [fst snd];
    match goal with |- context [_applyMinimumContrast sv w ?el ?b ?f ?c ?bo ?fo] =>
      destruct (applyMinimumContrast_element sv w el b f c bo fo) as [-> | [v ->]]
    end; eauto;
    match goal with |- context [if ?b then _ else _] => destruct b end; eauto.
Qed.

(** The fields of a new text element, the classes and the colour apart. *)
Lemma newCharElement_fields sv this a w i p isInverse resolvedBg bgOverride :
  let e := (newCharElement sv this a w i p isInverse resolvedBg bgOverride).1.1 in
  isTextElement e
  ∧ style_textDecoration e = (if isLinkHover i then Some "underline" else None)
  ∧ style_letterSpacing e
    = (if spacing i =? defaultSpacing this then None else Some (spacing i))
  ∧ classList e
    = styleClasses sv a i p
      ++ (foregroundPaint sv w i p isInverse resolvedBg bgOverride
            (if isLinkHover i
             then set_style_textDecoration "underline"
                    (underlineColor sv (cell i) createElement_span)
             else underlineColor sv (cell i) createElement_span)).1.2.
Proof.
  unfold newCharElement, isTextElement. cbn [fst snd].
  set (e0 := if isLinkHover i then _ else _).
  assert (He0 : style_left e0 = None ∧ style_width e0 = None
                ∧ style_backgroundColor e0 = None ∧ classList e0 = []
                ∧ style_letterSpacing e0 = None
                ∧ style_textDecoration e0
                  = (if isLinkHover i then Some "underline" else None)).
  { subst e0. unfold underlineColor. repeat case_match; done. }
  destruct He0 as (H1 & H2 & H3 & H4 & H5 & H6).
  set (fp := foregroundPaint sv w i p isInverse resolvedBg bgOverride e0).
  assert (He1 : style_left fp.1.1 = None ∧ style_width fp.1.1 = None
                ∧ style_backgroundColor fp.1.1 = None ∧ classList fp.1.1 = []
                ∧ style_letterSpacing fp.1.1 = None
                ∧ style_textDecoration fp.1.1
                  = (if isLinkHover i then Some "underline" else None)).
  { subst fp.
    destruct (foregroundPaint_element sv w i p isInverse resolvedBg bgOverride e0)
      as [-> | [v ->]]; done. }
  destruct He1 as (G1 & G2 & G3 & G4 & G5 & G6).
  destruct (styleClasses sv a i p ++ fp.1.2) as [|c cs] eqn:Hcl;
    destruct (negb (isCursorCell i) && negb (isJoined i));
    destruct (spacing i =? defaultSpacing this); simpl; done.
Qed.

Lemma isBackgroundElement_set_style_width v e :
  isBackgroundElement e → isBackgroundElement (set_style_width v e).
Proof. by intros H. Qed.

Lemma isTextElement_set_textContent t e :
  isTextElement e → isTextElement (set_textContent t e).
Proof. by intros H. Qed.

(** Properties of background elements and of text elements that every new
    element has and that writing the width, or the text, keeps hold of all
    the runs of the row. *)
Lemma runs_Forall sv this a w (Qb Qt : HTMLSpanElement → Prop) :
  (∀ e v, Qb e → Qb (set_style_width v e)) →
  (∀ x isInverse p, visited a x → Qb (newBackgroundElement sv a x isInverse p)) →
  (∀ e t, Qt e → Qt (set_textContent t e)) →
  (∀ x l w0 w1 p isInverse resolvedBg bgOverride,
     visited a x →
     Qt (newCharElement sv this a w1 (infoAt sv this a x l w0) p isInverse resolvedBg
           bgOverride).1.1) →
  ∃ l' w', createRow sv this a w = Some (backgroundRuns a l' ++ textRuns l', w')
           ∧ Forall Qb (backgroundRuns a l') ∧ Forall Qt (textRuns l').
Proof.
  intros Hbset Hbnew Hset Hnew.
  assert (Hclosed : ∀ l, (∀ e, charElement l = Some e → Qt e) →
            ∀ e, closedCharacters l = Some e → Qt e).
  { intros l Hl e. unfold closedCharacters.
    destruct (charCellAmount l =? 0); [apply Hl|].
    destruct (charElement l) as [e0|]; [|done]. intros [= <-]. by apply Hset, Hl. }
  assert (Hbclosed : ∀ l, (∀ e, backgroundElement l = Some e → Qb e) →
            ∀ e, closedBackground a l = Some e → Qb e).
  { intros l Hl e. unfold closedBackground.
    destruct (backgroundCellAmount l =? 0); [apply Hl|].
    destruct (backgroundElement l) as [e0|]; [|done]. intros [= <-]. by apply Hbset, Hl. }
  assert (Happ : ∀ (Q : HTMLSpanElement → Prop) els o,
            Forall Q els → (∀ e, o = Some e → Q e) → Forall Q (elements_of els o)).
  { intros Q els o H1 H2. unfold elements_of. apply Forall_app. split; [done|].
    destruct o as [e|]; [|constructor]. constructor; [by apply H2|constructor]. }
  destruct (createRow_invariant sv this a w
              (fun l _ => (Forall Qt (charElements l)
                           ∧ ∀ e, charElement l = Some e → Qt e)
                          ∧ (Forall Qb (backgroundElements l)
                             ∧ ∀ e, backgroundElement l = Some e → Qb e)))
    as (l' & w' & Hrow & [Hall Hcur] & [Hball Hbcur]).
  - repeat split; (constructor || done).
  - intros x l w0 _ [[Hall Hcur] [Hball Hbcur]].
    destruct (decide (visited a x)) as [Hv|Hv].
    2: { by rewrite skipped_localsAfter. }
    split.
    + destruct (canMergeCharacters sv l (infoAt sv this a x l w0)) eqn:Hc.
      * destruct (merged_text sv this a x l w0 Hv Hc) as [(_ & E1 & E2 & _) _].
        unfold localsAfter in *. by rewrite E1, E2.
      * destruct (opened_text sv this a x l w0 Hv Hc) as (_ & E1 & _).
        destruct (opened_text_element sv this a x l w0 Hv Hc)
          as (w1 & p & inv & rb & bo & E2).
        unfold localsAfter in *. rewrite E1, E2. split.
        -- apply Happ; [done|]. by apply Hclosed.
        -- intros e [= <-]. by apply Hnew.
    + destruct (canMergeBackground l (infoAt sv this a x l w0)) eqn:Hc.
      * destruct (merged_background sv this a x l w0 Hv Hc) as (_ & E1 & E2 & _).
        unfold localsAfter in *. by rewrite E1, E2.
      * destruct (opened_background sv this a x l w0 Hv Hc) as (_ & E1 & _).
        pose proof (opened_background_new sv this a x l w0 Hv Hc) as E2.
        unfold localsAfter in *. rewrite E1, E2. split.
        -- apply Happ; [done|]. by apply Hbclosed.
        -- intros e [= <-]. by apply Hbnew.
  - exists l', w'. split; [done|]. split.
    + apply Happ; [done|]. by apply Hbclosed.
    + apply Happ; [done|]. by apply Hclosed.
Qed.

(** X9. The elements that [createRow] returns are the background elements
    followed by the text elements.  Every background element has [xterm-bg]
    as its first class and a left edge, and has no text, colour, text
    decoration or letter spacing; every text element has no left edge, no
    width and no background colour. *)
Theorem createRow_layers (sv : Services) (this : DomRendererRowFactory)
    (a : Args) (w : World) :
  ∃ bgs txts w', createRow sv this a w = Some (bgs ++ txts, w')
                 ∧ Forall isBackgroundElement bgs
                 ∧ Forall isTextElement txts.
Proof.
  destruct (runs_Forall sv this a w isBackgroundElement isTextElement)
    as (l' & w' & Hrow & Hb & Ht).
  - intros e v H. by apply isBackgroundElement_set_style_width.
  - intros x inv p _. apply newBackgroundElement_fields.
  - intros e t H. by apply isTextElement_set_textContent.
  - intros x l w0 w1 p inv rb bo _. apply newCharElement_fields.
  - by exists (backgroundRuns a l'), (textRuns l'), w'.
Qed.

(** ** Link hover *)

(** X10. A text run that is started has the text decoration [underline]
    exactly when its cell lies in the hovered link, that is when both bounds
    of the link are set and the column is between them, bounds included.
    Without a hovered link no element of the row has a text decoration. *)
Theorem link_hover_underline (sv : Services) (this : DomRendererRowFactory)
    (a : Args) (w : World) :
  (∀ x l w0, visited a x →
     canMergeCharacters sv l (infoAt sv this a x l w0) = false →
     ∃ e, charElement (localsAfter sv this a x l w0) = Some e
          ∧ (style_textDecoration e = Some "underline"
             ↔ linkStart a ≠ -1 ∧ linkEnd a ≠ -1 ∧ linkStart a ≤ x ∧ x ≤ linkEnd a)
          ∧ (style_textDecoration e = None ∨ style_textDecoration e = Some "underline"))
  ∧ (hasHover a = false →
     ∃ out w', createRow sv this a w = Some (out, w')
               ∧ Forall (fun e => style_textDecoration e = None) out).
Proof.
  split.
  - intros x l w0 Hv Hc.
    destruct (opened_text_element sv this a x l w0 Hv Hc)
      as (w1 & p & inv & rb & bo & E).
    eexists. split; [exact E|].
    destruct (newCharElement_fields sv this a w1 (infoAt sv this a x l w0) p inv rb bo)
      as (_ & -> & _).
    assert (Hh : isLinkHover (infoAt sv this a x l w0) = true
                 ↔ linkStart a ≠ -1 ∧ linkEnd a ≠ -1 ∧ linkStart a ≤ x ∧ x ≤ linkEnd a).
    { unfold infoAt, cellInfo, hasHover. simpl.
      rewrite !andb_true_iff, !negb_true_iff, !Z.eqb_neq, !Z.leb_le. tauto. }
    destruct (isLinkHover (infoAt sv this a x l w0)).
    + split; [|by right]. split; [intros _; by apply Hh|done].
    + split; [|by left]. split; [done|]. intros H. by apply Hh in H.
  - intros Hh.
    destruct (runs_Forall sv this a w (fun e => style_textDecoration e = None)
                (fun e => style_textDecoration e = None))
      as (l' & w' & Hrow & Hb & Ht).
    + done.
    + intros x inv p _. apply newBackgroundElement_fields.
    + done.
    + intros x l w0 w1 p inv rb bo _.
      destruct (newCharElement_fields sv this a w1 (infoAt sv this a x l w0) p inv rb bo)
        as (_ & -> & _).
      unfold infoAt, cellInfo. simpl. by rewrite Hh.
    + exists (backgroundRuns a l' ++ textRuns l'), w'. split; [done|].
      by apply Forall_app.
Qed.

(** ** The cursor classes *)

Lemma foregroundPaint_classes sv w i p isInverse resolvedBg bgOverride e c :
  c ∈ (foregroundPaint sv w i p isInverse resolvedBg bgOverride e).1.2 →
  ∃ s, c = "xterm-fg-" +:+ s.
Proof.
  unfold foregroundPaint.
  destruct (paint_fgColorMode p); cbn [fst snd]; repeat case_match;
    intros Hin; try (by apply elem_of_nil in Hin);
    apply list_elem_of_singleton in Hin; eauto.
Qed.

Lemma cursor_class_not_fg s : RowCss.CURSOR_CLASS ≠ "xterm-fg-" +:+ s.
Proof. intros H. vm_compute in H. discriminate. Qed.

Lemma cursor_class_not_underline s :
  RowCss.CURSOR_CLASS ≠ RowCss.UNDERLINE_CLASS +:+ "-" +:+ s.
Proof. intros H. vm_compute in H. discriminate. Qed.

Lemma cursor_class_not_bg s : RowCss.CURSOR_CLASS ≠ "xterm-bg-" +:+ s.
Proof. intros H. vm_compute in H. discriminate. Qed.

Lemma cursor_class_in_styleClasses sv a i p :
  RowCss.CURSOR_CLASS ∈ styleClasses sv a i p
  ↔ cursorShown sv = true ∧ isCursorCell i = true.
Proof.
  unfold styleClasses, cursorClasses, cursorShown.
  rewrite !elem_of_app. split.
  - intros H.
    destruct (isCursorHidden sv), (isCursorCell i), (isCursorInitialized sv);
      simpl in *; try done;
      destruct H as [Hin|[Hin|[Hin|[Hin|[Hin|[Hin|[Hin|Hin]]]]]]];
      repeat case_match;
      try (by apply elem_of_nil in Hin);
      apply list_elem_of_singleton in Hin;
      try discriminate Hin;
      by apply cursor_class_not_underline in Hin.
  - intros [H1 H2]. right. left.
    apply andb_true_iff in H1 as [H1 H3]. rewrite H1, H2, H3. simpl.
    apply list_elem_of_here.
Qed.

Lemma cursor_class_in_newCharElement sv this a w i p isInverse resolvedBg bgOverride :
  RowCss.CURSOR_CLASS
  ∈ classList (newCharElement sv this a w i p isInverse resolvedBg bgOverride).1.1
  ↔ cursorShown sv = true ∧ isCursorCell i = true.
Proof.
  destruct (newCharElement_fields sv this a w i p isInverse resolvedBg bgOverride)
    as (_ & _ & _ & ->).
  rewrite elem_of_app, cursor_class_in_styleClasses. split; [|by left].
  intros [H|H]; [done|].
  apply foregroundPaint_classes in H as [s H]. by apply cursor_class_not_fg in H.
Qed.

Lemma cursor_class_not_in_newBackgroundElement sv a x isInverse p :
  RowCss.CURSOR_CLASS ∉ classList (newBackgroundElement sv a x isInverse p).
Proof.
  unfold newBackgroundElement.
  destruct (paint_bgColorMode p); [destruct isInverse| | |]; simpl; intros H;
    repeat (apply elem_of_cons in H as [H|H];
            [first [discriminate H | by apply cursor_class_not_bg in H]|]);
    by apply elem_of_nil in H.
Qed.

(** X11. The element of a text run that is started carries the class
    [xterm-cursor] exactly when the cursor is shown (not hidden, initialized)
    and the cell was found to be the cursor cell.  On a row that is not the
    cursor row, and on any row while the cursor is not shown, no element of
    the row carries that class. *)
Theorem cursor_class_only_on_cursor_cell (sv : Services) (this : DomRendererRowFactory)
    (a : Args) (w : World) :
  (∀ x l w0, visited a x →
     canMergeCharacters sv l (infoAt sv this a x l w0) = false →
     ∃ e, charElement (localsAfter sv this a x l w0) = Some e
          ∧ (RowCss.CURSOR_CLASS ∈ classList e
             ↔ cursorShown sv = true ∧ isCursorRow a = true ∧ x = cursorX' l))
  ∧ (cursorShown sv = false ∨ isCursorRow a = false →
     ∃ out w', createRow sv this a w = Some (out, w')
               ∧ Forall (fun e => RowCss.CURSOR_CLASS ∉ classList e) out).
Proof.
  assert (Hcell : ∀ x l w0,
            isCursorCell (infoAt sv this a x l w0) = true
            ↔ isCursorRow a = true ∧ x = cursorX' l).
  { intros x l w0. unfold infoAt, cellInfo. simpl.
    by rewrite andb_true_iff, Z.eqb_eq. }
  split.
  - intros x l w0 Hv Hc.
    destruct (opened_text_element sv this a x l w0 Hv Hc)
      as (w1 & p & inv & rb & bo & E).
    eexists. split; [exact E|].
    by rewrite cursor_class_in_newCharElement, Hcell.
  - intros Hoff.
    destruct (runs_Forall sv this a w (fun e => RowCss.CURSOR_CLASS ∉ classList e)
                (fun e => RowCss.CURSOR_CLASS ∉ classList e))
      as (l' & w' & Hrow & Hb & Ht).
    + done.
    + intros x inv p _. apply cursor_class_not_in_newBackgroundElement.
    + done.
    + intros x l w0 w1 p inv rb bo _.
      rewrite cursor_class_in_newCharElement, Hcell.
      intros (H1 & H2 & _). destruct Hoff; congruence.
    + exists (backgroundRuns a l' ++ textRuns l'), w'. split; [done|].
      by apply Forall_app.
Qed.

(** ** The geometry of the background runs *)

Lemma createRow_invariant_at sv this a w (P : Z → Locals → World → Prop) :
  P 0 (initialLocals sv a) w →
  (∀ x l w0, x < lineLength this a → P x l w0 →
     P ((createRow_cell sv this a x l w0).1.2 + 1)
       (createRow_cell sv this a x l w0).1.1 (createRow_cell sv this a x l w0).2) →
  ∃ x' l' w', createRow sv this a w = Some (backgroundRuns a l' ++ textRuns l', w')
              ∧ lineLength this a ≤ x' ∧ P x' l' w'.
Proof.
  intros Hinit Hstep. unfold createRow.
  destruct (createRow_loop_terminates sv this a
              (loop_fuel (lineLength this a) 0 (joinedRanges (initialLocals sv a)))
              0 (initialLocals sv a) w) as [[l' w'] Hloop]; [done|].
  rewrite Hloop.
  destruct (createRow_loop_invariant sv this a P Hstep _ _ _ _ _ _ Hinit Hloop)
    as (x' & Hx' & H).
  by exists x', l', w'.
Qed.






(** ** Rows of uniform cells *)

Lemma infoAt_plain sv this a x l w :
  joinedRanges l = [] →
  let i := infoAt sv this a x l w in
  let c := loadCell (lineData a) x in
  cell i = c ∧ isJoined i = false ∧ width i = getWidth c
  ∧ isInSelection i = _isCellInSelection this x (row a)
  ∧ isCursorCell i = isCursorRow a && (x =? cursorX' l)
  ∧ isLinkHover i = hasHover a && (linkStart a <=? x) && (x <=? linkEnd a)
  ∧ decorations i = forEachDecorationAtCell sv x (row a)
  ∧ isSameDecorations i
    = _isSameDecorations (forEachDecorationAtCell sv x (row a)) (oldDecorations (old l))
  ∧ chars i = renderedChars sv c
  ∧ spacing i
    = getWidth c * cellWidth a
      - (WidthCache_get sv (widthCache w) (renderedChars sv c) (isBold c) (isItalic c)).1.
Proof. intros H. unfold infoAt, cellInfo. simpl. rewrite H. done. Qed.

(** The conditions recorded for the next round: those of the cell when a run
    was started, the former ones when both runs were extended. *)
Lemma old_after_cell sv this a x l w :
  visited a x →
  let i := infoAt sv this a x l w in
  old (localsAfter sv this a x l w)
  = if canMergeCharacters sv l i && canMergeBackground l i then old l
    else {| oldBg := bg (cell i); oldFg := fg (cell i);
            oldExt := ext (extended (cell i)); oldLinkHover := isLinkHover i;
            oldSpacing := spacing i; oldIsInSelection := isInSelection i;
            oldDecorations := decorations i |}.
Proof.
  unfold visited, localsAfter, createRow_cell, infoAt. intros Hv. simpl.
  destruct (Z.eqb_spec (getWidth (loadCell (lineData a) x)) 0); [done|].
  case_canMergeCharacters; case_canMergeBackground; done.
Qed.

Lemma charText_after_open sv this a x l w :
  visited a x →
  canMergeCharacters sv l (infoAt sv this a x l w) = false →
  charText (localsAfter sv this a x l w) = newCharText sv (cell (infoAt sv this a x l w)).
Proof.
  unfold visited, localsAfter, createRow_cell, infoAt. intros Hv Hc. simpl in *.
  destruct (Z.eqb_spec (getWidth (loadCell (lineData a) x)) 0); [done|].
  rewrite Hc. simpl. done.
Qed.

Lemma applyMinimumContrast_widthCache sv w element bg fg c bgOverride fgOverride :
  widthCache (_applyMinimumContrast sv w element bg fg c bgOverride fgOverride).2
  = widthCache w.
Proof.
  unfold _applyMinimumContrast, contrastCache_setColor.
  repeat case_match; done.
Qed.

(** The width cache stays a memo table of the measurement. *)
Lemma createRow_cell_widthCache sv this a x l w :
  widthCacheConsistent sv (widthCache w) →
  widthCacheConsistent sv (widthCache (createRow_cell sv this a x l w).2).
Proof.
  intros H. unfold createRow_cell. simpl.
  destruct (getWidth (loadCell (lineData a) x) =? 0); [done|].
  assert (Hwc : widthCacheConsistent sv
            (cellInfo sv this a x l (set_world_workCell (loadCell (lineData a) x) w)).2).
  { unfold cellInfo. cbn [fst snd]. by apply WidthCache_get_consistent. }
  case_canMergeCharacters; case_canMergeBackground; cbn [andb fst snd]; try done;
    unfold newCharElement, foregroundPaint; cbn [fst snd];
    destruct (paint_fgColorMode _); cbn [fst snd];
    by rewrite applyMinimumContrast_widthCache.
Qed.

(** X13. A row of cells of width one that agree in the foreground and
    background attributes, the extended attributes, the selection and hover
    state, the decorations and the measured width, on a row without cursor
    and without joined ranges, is rendered as one background run over the
    whole row and one text run: the text of the first cell followed by the
    characters of the other cells. *)
Theorem uniform_row_one_run (sv : Services) (this : DomRendererRowFactory)
    (a : Args) (w : World) (f b e m : Z) (sel hov : bool) (ds : list DecorationRef) :
  1 ≤ lineLength this a →
  getJoinedCharacters sv (row a) = [] →
  isCursorRow a = false →
  widthCacheConsistent sv (widthCache w) →
  (∀ x, 0 ≤ x < lineLength this a →
     let c := loadCell (lineData a) x in
     getWidth c = 1 ∧ fg c = f ∧ bg c = b ∧ ext (extended c) = e
     ∧ _isCellInSelection this x (row a) = sel
     ∧ hasHover a && (linkStart a <=? x) && (x <=? linkEnd a) = hov
     ∧ forEachDecorationAtCell sv x (row a) = ds
     ∧ measure sv (renderedChars sv c) (isBold c) (isItalic c) = m) →
  ∃ bgEl txtEl w',
    createRow sv this a w = Some ([bgEl; txtEl], w')
    ∧ style_left bgEl = Some 0
    ∧ style_width bgEl = Some (lineLength this a * cellWidth a)
    ∧ textContent txtEl
      = newCharText sv (loadCell (lineData a) 0)
        +:+ foldr String.append ""
              ((fun x => renderedChars sv (loadCell (lineData a) x))
                 <$> seqZ 1 (lineLength this a - 1)).
Proof.
  intros Hlen Hjr Hcur Hwc Hcells.
  set (len := lineLength this a) in *.
  set (rc := fun x => renderedChars sv (loadCell (lineData a) x)).
  set (snapshot := {| oldBg := b; oldFg := f; oldExt := e; oldLinkHover := hov;
                      oldSpacing := 1 * cellWidth a - m; oldIsInSelection := sel;
                      oldDecorations := ds |}).
  pose (P := fun (x : Z) (l : Locals) (w0 : World) =>
    widthCacheConsistent sv (widthCache w0)
    ∧ ((x = 0 ∧ l = initialLocals sv a)
       ∨ (1 ≤ x ∧ x ≤ len ∧ joinedRanges l = []
          ∧ charElements l = [] ∧ backgroundElements l = []
          ∧ (∃ be, backgroundElement l = Some be ∧ style_left be = Some 0)
          ∧ is_Some (charElement l)
          ∧ backgroundCellAmount l = x ∧ charCellAmount l = x
          ∧ charText l = newCharText sv (loadCell (lineData a) 0)
                         +:+ foldr String.append "" (rc <$> seqZ 1 (x - 1))
          ∧ old l = snapshot))).
  assert (Hinfo : ∀ x l w0, 0 ≤ x < len → joinedRanges l = [] →
            widthCacheConsistent sv (widthCache w0) →
            let i := infoAt sv this a x l w0 in
            visited a x ∧ cell i = loadCell (lineData a) x ∧ isJoined i = false
            ∧ width i = 1 ∧ isCursorCell i = false
            ∧ chars i = rc x
            ∧ {| oldBg := bg (cell i); oldFg := fg (cell i);
                 oldExt := ext (extended (cell i)); oldLinkHover := isLinkHover i;
                 oldSpacing := spacing i; oldIsInSelection := isInSelection i;
                 oldDecorations := decorations i |} = snapshot
            ∧ isSameDecorations i = _isSameDecorations ds (oldDecorations (old l))).
  { intros x l w0 Hx Hl Hw0 i.
    destruct (infoAt_plain sv this a x l w0 Hl)
      as (I1 & I2 & I3 & I4 & I5 & I6 & I7 & I8 & I9 & I10).
    destruct (Hcells x Hx) as (C1 & C2 & C3 & C4 & C5 & C6 & C7 & C8).
    fold i in I1, I2, I3, I4, I5, I6, I7, I8, I9, I10.
    split; [unfold visited; rewrite C1; done|].
    split; [done|]. split; [done|]. split; [by rewrite I3|].
    split; [by rewrite I5, Hcur|]. split; [done|].
    split; [|by rewrite I8, C7].
    rewrite I1, I4, I6, I7, I10, C1, C2, C3, C4, C5, C6, C7.
    destruct (WidthCache_get_consistent sv (widthCache w0)
                (renderedChars sv (loadCell (lineData a) x))
                (isBold (loadCell (lineData a) x)) (isItalic (loadCell (lineData a) x))
                Hw0) as [-> _].
    by rewrite C8. }
  destruct (createRow_invariant_at sv this a w P) as (x' & l' & w' & Hrow & Hx' & HP).
  - split; [done|]. by left.
  - intros x l w0 Hx [Hw0 HP]. split; [by apply createRow_cell_widthCache|].
    right.
    assert (Hl : joinedRanges l = []).
    { destruct HP as [[_ ->]|(_ & _ & Hl & _)]; [exact Hjr|done]. }
    assert (H0 : 0 ≤ x) by (destruct HP as [[-> _]|(? & _)]; lia).
    destruct (Hinfo x l w0 ltac:(lia) Hl Hw0) as (Hv & Icell & Ij & Iw & Ic & Ich & Isnap & Isame).
    destruct (createRow_cell_position sv this a x l w0)
      as [(Hjr' & Hpos & _)|(range & Hr & _)]; [|by rewrite Hl in Hr].
    rewrite Hpos, Hjr', Hl.
    pose proof (old_after_cell sv this a x l w0 Hv) as Hold.
    unfold localsAfter in Hold. cbv zeta in Hold.
    destruct HP as [[-> ->]|(H1 & _ & _ & Hce & Hbe & (be & Hbel & Hbl) & Hte & Hba & Hca & Hct & Ho)].
    + (* the first cell starts both runs *)
      assert (Hc : canMergeCharacters sv (initialLocals sv a)
                     (infoAt sv this a 0 (initialLocals sv a) w0) = false) by done.
      assert (Hb : canMergeBackground (initialLocals sv a)
                     (infoAt sv this a 0 (initialLocals sv a) w0) = false) by done.
      destruct (opened_text sv this a 0 _ w0 Hv Hc) as (_ & E1 & E2 & E3 & _).
      destruct (opened_background sv this a 0 _ w0 Hv Hb) as (_ & B1 & _ & B3).
      pose proof (opened_background_new sv this a 0 _ w0 Hv Hb) as B2.
      pose proof (charText_after_open sv this a 0 _ w0 Hv Hc) as E4.
      unfold localsAfter in *. rewrite Hc in Hold. simpl in Hold.
      split; [lia|]. split; [lia|]. split; [done|].
      split; [by rewrite E1|]. split; [by rewrite B1|].
      split.
      { eexists. split; [exact B2|].
        destruct (newBackgroundElement_fields sv a 0
                    (isInverse (cell (infoAt sv this a 0 (initialLocals sv a) w0)))
                    (resolvePaint sv a 0 (infoAt sv this a 0 (initialLocals sv a) w0)))
          as (_ & -> & _).
        by rewrite Z.mul_0_r. }
      split; [done|]. split; [by rewrite B3, Iw|].
      split; [by rewrite E3, Ic, Ij|].
      split; [by rewrite E4, Icell, string_app_empty_r|].
      rewrite Hold. exact Isnap.
    + (* every other cell extends both runs *)
      assert (Hsame : isSameDecorations (infoAt sv this a x l w0) = true).
      { rewrite Isame, Ho. simpl. by apply isSameDecorations_true, sameDecorationList_eq. }
      injection Isnap as S1 S2 S3 S4 S5 S6 S7.
      assert (Hc : canMergeCharacters sv l (infoAt sv this a x l w0) = true).
      { apply canMergeCharacters_true. rewrite Ho. simpl.
        split; [split; [done|lia]|]. split; [by right|]. done. }
      assert (Hb : canMergeBackground l (infoAt sv this a x l w0) = true).
      { apply canMergeBackground_true. rewrite Ho. simpl.
        split; [split; [by eexists|lia]|]. split; [done|].
        rewrite S6. destruct sel; [by left|by right]. }
      destruct (merged_text sv this a x l w0 Hv Hc) as [(_ & E1 & E2 & E3 & E4) _].
      destruct (merged_background sv this a x l w0 Hv Hb) as (_ & B1 & B2 & B3).
      unfold localsAfter in *. rewrite Hc, Hb in Hold. simpl in Hold.
      split; [lia|]. split; [lia|]. split; [done|].
      split; [by rewrite E1|]. split; [by rewrite B1|].
      split; [exists be; by rewrite B2|].
      split; [by rewrite E2|]. split; [rewrite B3, Iw; lia|].
      split; [rewrite E4; lia|]. split; [|by rewrite Hold].
      rewrite E3, Hct, Ich, string_app_assoc. f_equal.
      replace (x + 1 - 1) with (x - 1 + 1) by lia.
      rewrite seqZ_app by lia. rewrite fmap_app, foldr_app. simpl.
      replace (1 + (x - 1)) with x by lia.
      generalize (rc <$> seqZ 1 (x - 1)). intros ss.
      induction ss as [|s ss IH]; simpl.
      * by rewrite string_app_empty_r.
      * by rewrite string_app_assoc, IH.
  - destruct HP as [_ [[-> _]|(_ & Hle & _ & Hce & Hbe & (be & Hbel & Hbl) & [te Hte] & Hba & Hca & Hct & _)]];
      [fold len in Hx'; lia|].
    assert (x' = len) as -> by (fold len in Hx'; lia).
    exists (set_style_width (len * cellWidth a) be), (set_textContent (charText l') te), w'.
    split.
    { rewrite Hrow. unfold backgroundRuns, textRuns, closedBackground, closedCharacters,
        elements_of.
      rewrite Hce, Hbe, Hbel, Hte, Hba, Hca.
      destruct (Z.eqb_spec len 0); [lia|]. done. }
    split; [done|]. split; [done|]. by rewrite <- Hct.
Qed.

Lemma uniform_row_one_run_witness :
  let sv := testServices 1 None in
  let a := testArgs [plainCell "a"; plainCell "b"; plainCell "c"] false 0 in
  1 ≤ lineLength noSelection a
  ∧ ∃ bgEl txtEl w',
      createRow sv noSelection a emptyWorld = Some ([bgEl; txtEl], w')
      ∧ style_width bgEl = Some (3 * 10)
      ∧ textContent txtEl = "abc".
Proof.
  intros sv a.
  assert (H1 : 1 ≤ lineLength noSelection a) by (vm_compute; discriminate).
  assert (Hc : ∀ x, 0 ≤ x < lineLength noSelection a →
            let c := loadCell (lineData a) x in
            getWidth c = 1 ∧ fg c = 0 ∧ bg c = 0 ∧ ext (extended c) = 0
            ∧ _isCellInSelection noSelection x (row a) = false
            ∧ hasHover a && (linkStart a <=? x) && (x <=? linkEnd a) = false
            ∧ forEachDecorationAtCell sv x (row a) = []
            ∧ measure sv (renderedChars sv c) (isBold c) (isItalic c) = 10).
  { intros x Hx. change (lineLength noSelection a) with 3 in Hx.
    assert (x = 0 ∨ x = 1 ∨ x = 2) as [-> | [-> | ->]] by lia;
      repeat split; reflexivity. }
  split; [exact H1|].
  destruct (uniform_row_one_run sv noSelection a emptyWorld 0 0 0 10 false false []
              H1 eq_refl eq_refl (proj2 (proj2 (memoTables_empty sv (plainCell ""))))
              Hc)
    as (bgEl & txtEl & w' & Hrow & _ & Hwd & Htxt).
  exists bgEl, txtEl, w'. split; [exact Hrow|]. split; [exact Hwd|exact Htxt].
Defined.

(** ** A cleared selection *)

(** X14. After [handleSelectionChanged] with an endpoint that is absent no
    row and no cell is in the selection, in either mode and whatever was
    selected before; the effective length of a row is then its trimmed
    length, extended for the cursor only. *)
Theorem cleared_selection_selects_nothing (this : DomRendererRowFactory)
    (start end_ : option (Z * Z)) (mode : bool) (a : Args) :
  start = None ∨ end_ = None →
  let this' := handleSelectionChanged this start end_ mode in
  (∀ x y, _isCellInSelection this' x y = false)
  ∧ (∀ y, _isRowInSelection this' y = false)
  ∧ lineLength this' a
    = (if isCursorRow a && (getNoBgTrimmedLength (lineData a) <? cursorX a + 1)
       then cursorX a + 1 else getNoBgTrimmedLength (lineData a))
  ∧ defaultSpacing this' = defaultSpacing this.
Proof.
  intros H this'. subst this'.
  unfold lineLength, _isCellInSelection, _isRowInSelection, handleSelectionChanged.
  simpl. destruct H as [-> | ->]; [done|]. by destruct start.
Qed.

Lemma cleared_selection_selects_nothing_witness :
  (Some (0, 0) = None ∨ @None (Z * Z) = None)
  ∧ _isCellInSelection (handleSelectionChanged selectedRow (Some (0, 0)) None false) 2 0
    = false.
Proof.
  assert (H : Some (0, 0) = None ∨ @None (Z * Z) = None) by (right; reflexivity).
  split; [exact H|].
  exact (proj1 (cleared_selection_selects_nothing selectedRow (Some (0, 0)) None false
                  (testArgs [] false 0) H) 2 0).
Defined.

(** ** The background of selected cells *)

(** X15. The background element started at a selected cell that no
    top-layer decoration covers is painted with the opaque selection colour
    (the inactive one when the terminal is not focused) as an explicit
    colour, whatever the colours, the inverse flag and the dim flag of the
    cell and whatever bottom-layer decorations say: two such cells at the
    same column give the same element.  Under a top-layer decoration the
    selection does not change the paint. *)
Theorem selected_background_paint (sv : Services) (a : Args) (x : Z) (i : CellInfo) :
  let ds := forEachDecorationAtCell sv x (row a) in
  let covered_by_top := existsb (fun r => layer_is_top (decoration sv r)) ds in
  let selBg := if isFocused sv then selectionBackgroundOpaque (colors sv)
               else selectionInactiveBackgroundOpaque (colors sv) in
  isInSelection i = true →
  (covered_by_top = false →
     newBackgroundElement sv a x (isInverse (cell i)) (resolvePaint sv a x i)
     = set_style_backgroundColor
         ("#" +:+ padStart (toString16 (ushr0 (band (shr (rgba selBg) 8) 0xFFFFFF))) "0" 6)
         (set_style_left (cellWidth a * x) (classList_add "xterm-bg" createElement_span)))
  ∧ (covered_by_top = true →
     resolvePaint sv a x i = applyDecorations sv ds (initialPaint (cell i))).
Proof.
  intros ds top selBg Hsel. subst top selBg.
  unfold resolvePaint. fold ds. rewrite Hsel.
  pose proof (applyDecorations_isTop sv ds (initialPaint (cell i))) as Htop.
  assert (Hi : isTop (initialPaint (cell i)) = false).
  { unfold initialPaint. by destruct (isInverse (cell i)). }
  rewrite Hi in Htop. simpl in Htop.
  split; intros H; rewrite H in Htop; unfold applySelection; rewrite Htop; simpl.
  - unfold newBackgroundElement.
    by destruct (selectionForeground (colors sv)).
  - done.
Qed.

Lemma selected_background_paint_witness :
  let sv := testServices 1 None in
  let a := testArgs [dimCell "a"] false 0 in
  let i := infoAt sv selectedRow a 0 (initialLocals sv a) emptyWorld in
  isInSelection i = true
  ∧ style_backgroundColor
      (newBackgroundElement sv a 0 (isInverse (cell i)) (resolvePaint sv a 0 i))
    = Some "#0000ff".
Proof.
  intros sv a i.
  assert (H : isInSelection i = true) by reflexivity.
  split; [exact H|].
  rewrite (proj1 (selected_background_paint sv a 0 i H) eq_refl). reflexivity.
Defined.

(** ** Glyphs without contrast demands *)

(** X16. The glyphs excluded from the contrast demands are the box and
    block glyphs U+2500-U+259F and the Powerline glyphs U+E0A4-U+E0D6, the
    restricted Powerline glyphs among them; no code point below U+2500 is
    excluded.  For a cell with an excluded glyph [_applyMinimumContrast]
    returns false and leaves the element and both caches as they are,
    whatever the ratio. *)
Theorem excluded_glyphs (codepoint : Z) :
  (excludeFromContrastRatioDemands codepoint = true
   ↔ 0x2500 ≤ codepoint ≤ 0x259F ∨ 0xE0A4 ≤ codepoint ≤ 0xE0D6)
  ∧ (isRestrictedPowerlineGlyph codepoint = true →
     isPowerlineGlyph codepoint = true
     ∧ excludeFromContrastRatioDemands codepoint = true)
  ∧ (codepoint < 0x2500 → excludeFromContrastRatioDemands codepoint = false)
  ∧ (excludeFromContrastRatioDemands codepoint = true →
     ∀ sv w element bg fg c bgOverride fgOverride,
       getCode c = codepoint →
       _applyMinimumContrast sv w element bg fg c bgOverride fgOverride
       = (false, element, w)).
Proof.
  unfold excludeFromContrastRatioDemands, isPowerlineGlyph, isBoxOrBlockGlyph,
    isRestrictedPowerlineGlyph.
  split; [|split; [|split]].
  - rewrite orb_true_iff, !andb_true_iff, !Z.leb_le. lia.
  - rewrite orb_true_iff, !andb_true_iff, !Z.leb_le. lia.
  - intros H. apply not_true_is_false.
    rewrite orb_true_iff, !andb_true_iff, !Z.leb_le. lia.
  - intros H sv w element bg fg c bo fo Hc. unfold _applyMinimumContrast.
    unfold excludeFromContrastRatioDemands, isPowerlineGlyph, isBoxOrBlockGlyph.
    rewrite Hc, H. by rewrite orb_true_r.
Qed.

(** ** RendererUtils: curly underlines *)

Lemma Math_round_zero (q : Q) :
  Math_round q = 0 <-> (-(1 # 2) <= q /\ q < 1 # 2)%Q.
Proof.
  unfold Math_round.
  pose proof (Qfloor_le (q + (1 # 2))) as Hle.
  pose proof (Qlt_floor (q + (1 # 2))) as Hlt.
  split.
  - intros H. rewrite H in Hle, Hlt.
    destruct q as [a b]. unfold Qle, Qlt, Qplus in *. simpl in *. lia.
  - intros [Hlo Hhi].
    assert (H1 : (inject_Z (Qfloor (q + (1 # 2))) < inject_Z 1)%Q).
    { eapply Qle_lt_trans; [exact Hle|].
      destruct q as [a b]. unfold Qle, Qlt, Qplus in *. simpl in *. lia. }
    assert (H0 : (inject_Z 0 < inject_Z (Qfloor (q + (1 # 2)) + 1))%Q).
    { eapply Qle_lt_trans; [|exact Hlt].
      destruct q as [a b]. unfold Qle, Qlt, Qplus in *. simpl in *. lia. }
    rewrite <- Zlt_Qlt in H0, H1. lia.
Qed.

(** X17.  [computeNextVariantOffset] is NaN exactly for a line width that
    rounds to zero (from -1/2 up to, not including, 1/2).  Otherwise, with
    [d] twice the rounded line width, the next offset is congruent to
    [cellWidth + currentOffset] modulo [d], smaller than [d] in absolute
    value, and of the sign of [cellWidth + currentOffset - d]: it is
    negative when the cell and the current offset together are narrower than
    [d]. *)
Theorem computeNextVariantOffset_range (cellWidth : Z) (lineWidth : Q)
    (currentOffset : Z) :
  let d := Math_round lineWidth * 2 in
  (computeNextVariantOffset cellWidth lineWidth currentOffset = None
     <-> (-(1 # 2) <= lineWidth /\ lineWidth < 1 # 2)%Q) /\
  (forall r, computeNextVariantOffset cellWidth lineWidth currentOffset = Some r ->
     Z.abs r < Z.abs d /\
     (exists k, cellWidth + currentOffset = k * d + r) /\
     (d <= cellWidth + currentOffset -> 0 <= r) /\
     (cellWidth + currentOffset <= d -> r <= 0) /\
     (0 < d -> 0 <= cellWidth + currentOffset ->
        r = (cellWidth + currentOffset) mod d
        \/ (cellWidth + currentOffset < d /\ r = cellWidth + currentOffset - d))).
Proof.
  intros d. unfold computeNextVariantOffset, js_rem. fold d. split.
  - rewrite <- Math_round_zero.
    destruct (Z.eqb_spec d 0) as [E|E]; split; intros H;
      first [done | subst d; lia].
  - intros r H. destruct (Z.eqb_spec d 0) as [E|E]; [done|].
    injection H as <-.
    set (a := cellWidth - (d - currentOffset)).
    assert (Ha : a = cellWidth + currentOffset - d) by (unfold a; lia).
    pose proof (Z.rem_bound_abs a d E) as Hb.
    pose proof (Z.quot_rem' a d) as Hq.
    split; [exact Hb|]. split.
    { exists (Z.quot a d + 1). lia. }
    split.
    { intros Hge. apply Z.rem_nonneg; [exact E|lia]. }
    split.
    { intros Hle. apply Z.rem_nonpos; [exact E|lia]. }
    intros Hd Hs.
    destruct (Z.lt_ge_cases (cellWidth + currentOffset) d) as [Hlt|Hge].
    + destruct (Z.eq_dec (cellWidth + currentOffset) 0) as [Hz|Hnz].
      { left. rewrite Hz, Z.mod_0_l by exact E.
        replace a with (- d) by lia.
        rewrite Z.rem_opp_l, Z.rem_same by exact E. reflexivity. }
      right. split; [exact Hlt|].
      assert (Hopp : Z.rem (- (d - (cellWidth + currentOffset))) d
                     = - (d - (cellWidth + currentOffset))).
      { rewrite Z.rem_opp_l by exact E.
        rewrite Z.rem_small by lia. reflexivity. }
      replace a with (- (d - (cellWidth + currentOffset))) by lia.
      rewrite Hopp. lia.
    + left. rewrite Z.rem_mod_nonneg by lia.
      rewrite Ha.
      replace (cellWidth + currentOffset - d)
        with (cellWidth + currentOffset + (-1) * d) by lia.
      apply Z.mod_add. exact E.
Qed.

Lemma segment_nonempty (tag : string) (n : Z) : tag <> "" -> segment tag n <> "".
Proof.
  destruct tag as [|c tag]; [done|]. intros _. unfold segment.
  change (String c tag +:+ pretty n) with (String c (tag +:+ pretty n)). done.
Qed.

Lemma concat_nonempty (sep : string) (l : list string) :
  l <> [] -> Forall (fun v => v <> "") l -> String.concat sep l <> "".
Proof.
  destruct l as [|v l]; [done|]. intros _ Hall.
  apply Forall_cons in Hall as [Hv _].
  destruct v as [|c v]; [done|].
  destruct l as [|v' l]; simpl; [done|].
  change (String c v ++ sep ++ String.concat sep (v' :: l))%string
    with (String c (v ++ sep ++ String.concat sep (v' :: l))%string).
  done.
Qed.

(** One round of the inner loop of [createVariantSequences] uses up a pixel at
    least and pushes one segment. *)
Lemma curlyStep_progress (point line : Z) (s : CurlyState) :
  1 <= point -> 1 <= line -> 0 <= waitHandleLinePx s -> 0 < cellCurrentWidth s ->
  cellCurrentWidth (curlyStep point line s) <= cellCurrentWidth s - 1 /\
  0 <= waitHandleLinePx (curlyStep point line s) /\
  exists seg, seg <> "" /\
    cellResult (curlyStep point line s) = cellResult s ++ [seg].
Proof.
  intros Hp Hl Hw Hc. unfold curlyStep.
  destruct (midOrLine s), (lastUpOrDown s), (upOrDown s); simpl;
    destruct (Z.ltb_spec 0 (waitHandleLinePx s)); simpl;
    try (destruct (Z.ltb_spec (cellCurrentWidth s) point); simpl);
    try (destruct (Z.ltb_spec (cellCurrentWidth s) line); simpl);
    (split; [lia|]); (split; [lia|]);
    (eexists; split; [|reflexivity]); apply segment_nonempty; done.
Qed.

Lemma curlyCell_terminates (point line : Z) :
  1 <= point -> 1 <= line ->
  forall (fuel : nat) (s : CurlyState),
    0 <= waitHandleLinePx s ->
    cellCurrentWidth s <= Z.of_nat fuel ->
    Forall (fun v => v <> "") (cellResult s) ->
    exists s', curlyCell fuel point line s = Some s' /\
      0 <= waitHandleLinePx s' /\
      Forall (fun v => v <> "") (cellResult s') /\
      (0 < cellCurrentWidth s -> cellResult s' <> []) /\
      (cellResult s <> [] -> cellResult s' <> []).
Proof.
  intros Hp Hl. induction fuel as [|fuel IH]; intros s Hw Hc Hall.
  - simpl. destruct (Z.ltb_spec 0 (cellCurrentWidth s)); [lia|].
    exists s. repeat split; try done. lia.
  - simpl. destruct (Z.ltb_spec 0 (cellCurrentWidth s)) as [Hpos|Hneg].
    + destruct (curlyStep_progress point line s Hp Hl Hw Hpos)
        as (Hdec & Hw' & seg & Hseg & Hres).
      destruct (IH (curlyStep point line s)) as (s' & Hrun & Hw'' & Hall' & _ & Hne).
      * exact Hw'.
      * lia.
      * rewrite Hres. apply Forall_app. split; [exact Hall|].
        apply Forall_cons. split; [exact Hseg|apply Forall_nil_2].
      * exists s'. repeat split; try done.
        -- intros _. apply Hne. rewrite Hres. by destruct (cellResult s).
        -- intros _. apply Hne. rewrite Hres. by destruct (cellResult s).
    + exists s. repeat split; try done. lia.
Qed.

Lemma curlyCells_spec (cellWidth point line : Z) :
  1 <= cellWidth -> 1 <= point -> 1 <= line ->
  forall (fuel : nat) (n : Z) (result : list string) (s : CurlyState),
    0 <= waitHandleLinePx s -> 0 <= n -> n <= Z.of_nat fuel ->
    Forall (fun v => v <> "") result ->
    exists plan,
      curlyCells fuel cellWidth point line (cellWidth * n) result s = Some plan /\
      Z.of_nat (List.length plan) = Z.of_nat (List.length result) + n /\
      Forall (fun v => v <> "") plan.
Proof.
  intros Hc Hp Hl. induction fuel as [|fuel IH]; intros n result s Hw Hn Hf Hall.
  - simpl. destruct (Z.ltb_spec 0 (cellWidth * n)); [nia|].
    exists result. repeat split; [lia|exact Hall].
  - simpl. destruct (Z.ltb_spec 0 (cellWidth * n)) as [Hpos|Hneg].
    + assert (1 <= n) by nia.
      destruct (curlyCell_terminates point line Hp Hl (Z.to_nat cellWidth)
                  {| cellResult := []; cellCurrentWidth := cellWidth;
                     midOrLine := midOrLine s;
                     waitHandleLinePx := waitHandleLinePx s;
                     upOrDown := upOrDown s; lastUpOrDown := lastUpOrDown s |})
        as (s' & Hrun & Hw' & Hall' & Hne & _); simpl; try done; try lia.
      rewrite Hrun.
      replace (cellWidth * n - cellWidth) with (cellWidth * (n - 1)) by lia.
      destruct (IH (n - 1) (result ++ [String.concat " " (cellResult s')]) s')
        as (plan & Hplan & Hlen & Hallp); try done; try lia.
      { apply Forall_app. split; [exact Hall|].
        apply Forall_cons. split; [|apply Forall_nil_2].
        apply concat_nonempty; [|exact Hall']. apply Hne. simpl. lia. }
      exists plan. repeat split; [exact Hplan| |exact Hallp].
      rewrite Hlen, length_app. simpl. lia.
    + assert (n = 0) by nia. subst n.
      exists result. repeat split; [lia|exact Hall].
Qed.

Lemma createVariantSequences_spec (cellWidth fullSegmentWidth point line : Z) :
  1 <= cellWidth -> 0 <= fullSegmentWidth -> 1 <= point -> 1 <= line ->
  exists plan,
    createVariantSequences cellWidth fullSegmentWidth point line 0 false = Some plan /\
    Z.of_nat (List.length plan) = fullSegmentWidth /\
    Forall (fun v => v <> "") plan.
Proof.
  intros Hc Hn Hp Hl. unfold createVariantSequences. simpl.
  destruct (curlyCells_spec cellWidth point line Hc Hp Hl
              (Z.to_nat (cellWidth * fullSegmentWidth)) fullSegmentWidth []
              {| cellResult := []; cellCurrentWidth := 0; midOrLine := false;
                 waitHandleLinePx := 0; upOrDown := false; lastUpOrDown := false |})
    as (plan & Hplan & Hlen & Hall); simpl; try done; try nia.
  exists plan. repeat split; [exact Hplan|simpl in Hlen; lia|exact Hall].
Qed.

Lemma createDrawCurlyPlan_spec (UNDERLINE_CURLY_SEGMENT_SIZE cellWidth lineWidth : Z) :
  0 <= UNDERLINE_CURLY_SEGMENT_SIZE -> 1 <= cellWidth -> 1 <= lineWidth ->
  exists plan,
    createDrawCurlyPlan UNDERLINE_CURLY_SEGMENT_SIZE cellWidth lineWidth = Some plan /\
    Z.of_nat (List.length plan)
      = (if lineWidth =? 2 then 12
         else if lineWidth =? 3 then 16
         else UNDERLINE_CURLY_SEGMENT_SIZE * lineWidth * 2) /\
    Forall (fun v => v <> "") plan.
Proof.
  intros Hs Hc Hl. unfold createDrawCurlyPlan.
  destruct (lineWidth =? 2); [|destruct (lineWidth =? 3)];
    apply createVariantSequences_spec; nia.
Qed.

(** X18.  For a cell and a line of one device pixel at least,
    [createDrawCurlyPlan] comes to an end and returns one variant per cell of
    the period: 12 variants for a line width of 2, 16 for a line width of 3,
    and [UNDERLINE_CURLY_SEGMENT_SIZE * lineWidth * 2] otherwise; no variant
    is the empty string. *)
Theorem createDrawCurlyPlan_length
    (UNDERLINE_CURLY_SEGMENT_SIZE cellWidth lineWidth : Z)
    (Hsize : 0 <= UNDERLINE_CURLY_SEGMENT_SIZE)
    (HcellWidth : 1 <= cellWidth) (HlineWidth : 1 <= lineWidth) :
  exists plan,
    createDrawCurlyPlan UNDERLINE_CURLY_SEGMENT_SIZE cellWidth lineWidth = Some plan /\
    Z.of_nat (List.length plan)
      = (if lineWidth =? 2 then 12
         else if lineWidth =? 3 then 16
         else UNDERLINE_CURLY_SEGMENT_SIZE * lineWidth * 2) /\
    Forall (fun v => v <> "") plan.
Proof.
  exact (createDrawCurlyPlan_spec _ _ _ Hsize HcellWidth HlineWidth).
Qed.

Lemma createDrawCurlyPlan_length_witness :
  (0 <= 2 /\ 1 <= 9 /\ 1 <= 1) /\
  exists plan,
    createDrawCurlyPlan 2 9 1 = Some plan /\
    Z.of_nat (List.length plan) = (if 1 =? 2 then 12 else if 1 =? 3 then 16 else 2 * 1 * 2) /\
    Forall (fun v => v <> "") plan.
Proof.
  assert (H : 0 <= 2 /\ 1 <= 9 /\ 1 <= 1) by lia.
  split; [exact H|].
  exact (createDrawCurlyPlan_length 2 9 1 (proj1 H) (proj1 (proj2 H)) (proj2 (proj2 H))).
Defined.

(** X19.  With a cache whose entries are the plans of their keys, a cell and
    a line of one pixel at least and a column [x >= 0],
    [getCurlyVariantOffset] returns an offset within the plan of the pair
    (cellWidth, lineWidth), which the cache holds afterwards, and keeps the
    cache's invariant; [getCurlyVariant] at that offset then returns the
    plan's variant of that index, which is not empty (no fallback to the
    first one), and asking for the offset again returns the same offset and
    leaves the cache as it is. *)
Theorem curlyVariant_offset_round_trip
    (UNDERLINE_CURLY_SEGMENT_SIZE : Z) (cache : gmap (Z * Z) (list string))
    (x cellWidth lineWidth : Z)
    (Hsize : 1 <= UNDERLINE_CURLY_SEGMENT_SIZE)
    (HcellWidth : 1 <= cellWidth) (HlineWidth : 1 <= lineWidth) (Hx : 0 <= x)
    (Hcache : cacheOfPlans UNDERLINE_CURLY_SEGMENT_SIZE cache) :
  exists offset cache' plan v,
    getCurlyVariantOffset UNDERLINE_CURLY_SEGMENT_SIZE cache x cellWidth lineWidth
      = Some (Some offset, cache') /\
    cacheOfPlans UNDERLINE_CURLY_SEGMENT_SIZE cache' /\
    createDrawCurlyPlan UNDERLINE_CURLY_SEGMENT_SIZE cellWidth lineWidth = Some plan /\
    cache' !! (cellWidth, lineWidth) = Some plan /\
    offset = x mod Z.of_nat (List.length plan) /\
    plan !! Z.to_nat offset = Some v /\ v <> "" /\
    getCurlyVariant cache' cellWidth lineWidth offset = v /\
    getCurlyVariantOffset UNDERLINE_CURLY_SEGMENT_SIZE cache' x cellWidth lineWidth
      = Some (Some offset, cache').
Proof.
  destruct (createDrawCurlyPlan_spec UNDERLINE_CURLY_SEGMENT_SIZE cellWidth lineWidth)
    as (plan & Hplan & Hlen & Hall); try done; try lia.
  assert (Hpos : 0 < Z.of_nat (List.length plan)).
  { rewrite Hlen. destruct (lineWidth =? 2); [lia|].
    destruct (lineWidth =? 3); [lia|nia]. }
  set (offset := x mod Z.of_nat (List.length plan)).
  assert (Hoff : 0 <= offset < Z.of_nat (List.length plan)) by (apply Z.mod_pos_bound; lia).
  assert (Hrem : js_rem x (Z.of_nat (List.length plan)) = Some offset).
  { unfold js_rem. destruct (Z.eqb_spec (Z.of_nat (List.length plan)) 0); [lia|].
    rewrite Z.rem_mod_nonneg by lia. reflexivity. }
  destruct (lookup_lt_is_Some_2 plan (Z.to_nat offset)) as [v Hv]; [lia|].
  assert (Hne : v <> "").
  { rewrite Forall_forall in Hall. apply Hall.
    eapply list_elem_of_lookup_2. exact Hv. }
  set (cache' := match cache !! (cellWidth, lineWidth) with
                 | Some _ => cache
                 | None => <[(cellWidth, lineWidth) := plan]> cache
                 end).
  assert (Hget : cache' !! (cellWidth, lineWidth) = Some plan).
  { unfold cache'. destruct (cache !! (cellWidth, lineWidth)) as [p|] eqn:E.
    - rewrite E. apply Hcache in E. congruence.
    - apply lookup_insert_eq. }
  assert (Hagain : getCurlyVariantOffset UNDERLINE_CURLY_SEGMENT_SIZE cache' x
                     cellWidth lineWidth = Some (Some offset, cache')).
  { unfold getCurlyVariantOffset. rewrite Hget, Hrem. reflexivity. }
  exists offset, cache', plan, v. repeat split; try done.
  - unfold getCurlyVariantOffset, cache'.
    destruct (cache !! (cellWidth, lineWidth)) as [p|] eqn:E.
    + apply Hcache in E. assert (p = plan) as -> by congruence.
      rewrite Hrem. reflexivity.
    + rewrite Hplan, Hrem. reflexivity.
  - unfold cache'. destruct (cache !! (cellWidth, lineWidth)) as [p|] eqn:E;
      [exact Hcache|].
    intros cw lw p Hp.
    destruct (decide ((cellWidth, lineWidth) = (cw, lw))) as [Heq|Hneq].
    + injection Heq as <- <-. rewrite lookup_insert_eq in Hp. congruence.
    + rewrite lookup_insert_ne in Hp by exact Hneq. by apply Hcache.
  - unfold getCurlyVariant. rewrite Hget.
    destruct (Nat.ltb_spec 0 (List.length plan)); [|lia].
    unfold variantAt. destruct (Z.ltb_spec offset 0); [lia|].
    rewrite Hv. destruct (String.eqb_spec v ""); done.
Qed.

Lemma curlyVariant_offset_round_trip_witness :
  (1 <= 2 /\ 1 <= 9 /\ 1 <= 1 /\ 0 <= 7 /\ cacheOfPlans 2 ∅) /\
  exists offset cache' plan v,
    getCurlyVariantOffset 2 ∅ 7 9 1 = Some (Some offset, cache') /\
    cacheOfPlans 2 cache' /\
    createDrawCurlyPlan 2 9 1 = Some plan /\
    cache' !! (9, 1) = Some plan /\
    offset = 7 mod Z.of_nat (List.length plan) /\
    plan !! Z.to_nat offset = Some v /\ v <> "" /\
    getCurlyVariant cache' 9 1 offset = v /\
    getCurlyVariantOffset 2 cache' 7 9 1 = Some (Some offset, cache').
Proof.
  assert (H : 1 <= 2 /\ 1 <= 9 /\ 1 <= 1 /\ 0 <= 7 /\ cacheOfPlans 2 ∅).
  { repeat split; try lia. intros cw lw p Hp. rewrite lookup_empty in Hp. done. }
  split; [exact H|].
  destruct H as (H1 & H2 & H3 & H4 & H5).
  exact (curlyVariant_offset_round_trip 2 ∅ 7 9 1 H1 H2 H3 H4 H5).
Defined.

(** X20.  [getCurlyVariant] returns the empty string when no plan is cached
    for the pair (cellWidth, lineWidth) or the cached plan is empty, and
    otherwise a variant of the cached plan, whatever the offset: the variant
    at the offset when there is one and it is not empty, and the first
    variant for every other offset (negative, or beyond the plan). *)
Theorem getCurlyVariant_in_plan (cache : gmap (Z * Z) (list string))
    (cellWidth lineWidth offset : Z) :
  match cache !! (cellWidth, lineWidth) with
  | None | Some [] => getCurlyVariant cache cellWidth lineWidth offset = ""
  | Some (first :: rest) =>
      getCurlyVariant cache cellWidth lineWidth offset ∈ first :: rest /\
      (forall v, 0 <= offset -> (first :: rest) !! Z.to_nat offset = Some v ->
                 v <> "" -> getCurlyVariant cache cellWidth lineWidth offset = v) /\
      (offset < 0 \/ Z.of_nat (List.length (first :: rest)) <= offset ->
       getCurlyVariant cache cellWidth lineWidth offset = first)
  end.
Proof.
  unfold getCurlyVariant.
  destruct (cache !! (cellWidth, lineWidth)) as [[|first rest]|]; try done.
  change (0 <? List.length (first :: rest))%nat with true. cbv iota.
  unfold variantAt. split; [|split].
  - destruct (Z.ltb_spec offset 0); [apply list_elem_of_here|].
    destruct ((first :: rest) !! Z.to_nat offset) as [v|] eqn:E;
      [|apply list_elem_of_here].
    destruct (String.eqb_spec v ""); [apply list_elem_of_here|].
    eapply list_elem_of_lookup_2. exact E.
  - intros v Hpos Hv Hne. destruct (Z.ltb_spec offset 0); [lia|].
    rewrite Hv. destruct (String.eqb_spec v ""); done.
  - intros [Hneg|Hbig].
    + destruct (Z.ltb_spec offset 0); [done|lia].
    + destruct (Z.ltb_spec offset 0); [done|].
      rewrite (lookup_ge_None_2 (first :: rest) (Z.to_nat offset)) by lia.
      done.
Qed.
